(** * service-client: the session layer of the RPC client

    A shallow embedding of [Client] (the class exported by the package's
    index module), of [Packet]/[PacketData]/[Handler] from [types.ts] and of
    [parseJSON] from the utilities, followed by the properties of the
    dispatch path, the call registry and the reconnect loop.

    Conventions of the embedding:
    - a JavaScript value obtained from [JSON.parse] is a [json]; a value that
      may be [undefined] is an [option json], with [None] for [undefined];
    - numbers are integers ([Z], [N]): the counters and the configured
      intervals are used inside the range where JavaScript arithmetic on
      them is exact, and a number [JNum z] of a payload is printed by its
      decimal digits, which is what JavaScript prints up to [2^53]
      ([prints_exactly] below says when a value is inside that range);
    - an exception is a [Throw] completion; a function that can throw
      returns its [Completion], and [String(v)], which throws for some
      objects, returns an [option];
    - an object whose identity matters (a [Handler] pushed on
      [this.handlers], compared by [indexOf]) carries the address [ref] it was
      allocated at;
    - promises, sockets, timers and emitted events live in a [World] next to
      the [Client] object; an [async] function is a task that is resumed at
      each of its [await]s. *)

From Stdlib Require Import ZArith String Ascii List Lia.
From stdpp Require Import base list strings pretty.

Set Warnings "-register-all".

Local Open Scope string_scope.
Local Open Scope Z_scope.
Local Open Scope list_scope.

(** ** JavaScript values *)

Inductive json : Type :=
| JNull
| JBool (b : bool)
| JNum (z : Z)
| JStr (s : string)
| JArr (xs : list json)
| JObj (kvs : list (string * json)).

(** Property read [v.k] on a value that is neither [null] nor [undefined]:
    none of the keys read by the client exists on a primitive or on an array,
    so only objects answer. *)
Fixpoint assoc (k : string) (kvs : list (string * json)) : option json :=
  match kvs with
  | [] => None
  | (k', v) :: rest => if String.eqb k k' then Some v else assoc k rest
  end.

Definition get_prop (v : json) (k : string) : option json :=
  match v with
  | JObj kvs => assoc k kvs
  | _ => None
  end.

(** Truthiness, as tested by [if (x)] and [!x]. *)
Definition truthy (v : option json) : bool :=
  match v with
  | None | Some JNull => false
  | Some (JBool b) => b
  | Some (JNum z) => negb (z =? 0)
  | Some (JStr s) => negb (String.eqb s "")
  | Some (JArr _) | Some (JObj _) => true
  end.

Fixpoint join (sep : string) (l : list string) : string :=
  match l with
  | [] => ""
  | [x] => x
  | x :: rest => x +:+ sep +:+ join sep rest
  end.

(** [String(v)] and the conversion done by a template literal, for a value
    made by [JSON.parse]; [None] when it throws a [TypeError]. An object is
    converted by its [toString]: the inherited one prints [[object Object]],
    but a key [toString] of the object itself hides it, is no function, and
    [valueOf] returns no primitive, so the conversion throws. An array joins
    the conversions of its elements, [null] giving the empty string. *)
Fixpoint to_string (v : json) : option string :=
  match v with
  | JNull => Some "null"
  | JBool true => Some "true"
  | JBool false => Some "false"
  | JNum z => Some (pretty z)
  | JStr s => Some s
  | JArr xs =>
      option_map (join ",")
        ((fix elems (l : list json) : option (list string) :=
            match l with
            | [] => Some []
            | x :: rest =>
                match match x with JNull => Some "" | _ => to_string x end,
                      elems rest with
                | Some s, Some ss => Some (s :: ss)
                | _, _ => None
                end
            end) xs)
  | JObj kvs =>
      match assoc "toString" kvs with
      | Some _ => None
      | None => Some "[object Object]"
      end
  end.

Definition String_ (v : option json) : option string :=
  match v with
  | None => Some "undefined"
  | Some j => to_string j
  end.

(** The values whose numbers lie where JavaScript prints an integer by its
    decimal digits, as [to_string] does. *)
Fixpoint prints_exactly (v : json) : bool :=
  match v with
  | JNum z => Z.abs z <=? 9007199254740992
  | JArr xs =>
      (fix all (l : list json) : bool :=
         match l with
         | [] => true
         | x :: rest => prints_exactly x && all rest
         end) xs
  | _ => true
  end.

(** [path.split('/')]: never empty. *)
Fixpoint split_slash (s : string) : list string :=
  match s with
  | EmptyString => [""]
  | String c rest =>
      if Ascii.eqb c "/"%char then "" :: split_slash rest
      else match split_slash rest with
           | x :: xs => String c x :: xs
           | [] => [String c ""]
           end
  end.

(** ** types.ts *)

Inductive PacketType := Call | Watch | Callback.

Definition tag (t : PacketType) : string :=
  match t with
  | Call => "call"
  | Watch => "watch"
  | Callback => "callback"
  end.

(** An outbound envelope, as given to [write]. *)
Record PacketData := {
  s : option string;
  n : option string;
  t : PacketType;
  d : option json;
  i : string;
}.

Inductive Exn :=
| TypeError (msg : string)
| Error (msg : string).

Inductive Completion :=
| Normal
| Throw (e : Exn).

(** The two kinds of function stored in a [Handler]: the closure built by
    [send], which owns the [resolve]/[reject] pair of promise [p], and a
    function given to [registerHandler].  The latter is application code: it
    is seen through what it does with a packet, return or throw. *)
Inductive HandlerFunction :=
| Settle (p : nat)
| UserFn (f : json -> Completion).

Record Handler := {
  ref : nat;
  name : string;
  type : PacketType;
  handler : HandlerFunction;
}.

(** ** The client object and its surroundings *)

Record Options := {
  opt_name : option string;
  host : option string;
  port : option Z;
  path : option string;
  token : option string;
  autoReconnect : option bool;
  reconnectInterval : option Z;
  reconnectIntervalMultiplier : option Z;
}.

Definition DEFAULT_HOST : string := "127.0.0.1".
Definition DEFAULT_PORT : Z := 9998.

Definition DEFAULT_OPTIONS : Options :=
  {| opt_name := None; host := Some DEFAULT_HOST; port := Some DEFAULT_PORT;
     path := Some "/"; token := None; autoReconnect := Some true;
     reconnectInterval := Some 2000; reconnectIntervalMultiplier := Some 1 |}.

(** The object given to the constructor. A key of it is absent ([None]),
    or present with a value that may be [undefined] ([Some None]). *)
Record Given := {
  given_name : option (option string);
  given_host : option (option string);
  given_port : option (option Z);
  given_path : option (option string);
  given_token : option (option string);
  given_autoReconnect : option (option bool);
  given_reconnectInterval : option (option Z);
  given_reconnectIntervalMultiplier : option (option Z);
}.

(** The argument [{}]. *)
Definition no_options : Given :=
  {| given_name := None; given_host := None; given_port := None;
     given_path := None; given_token := None; given_autoReconnect := None;
     given_reconnectInterval := None;
     given_reconnectIntervalMultiplier := None |}.

(** One key of [{...a, ...b}]: a key present in [b] wins, whatever its
    value, [undefined] included. *)
Definition over {A} (key : option (option A)) (dflt : option A) : option A :=
  match key with Some v => v | None => dflt end.

(** [{...a, ...b}] *)
Definition spread (a : Options) (b : Given) : Options :=
  {| opt_name := over (given_name b) (opt_name a);
     host := over (given_host b) (host a);
     port := over (given_port b) (port a);
     path := over (given_path b) (path a);
     token := over (given_token b) (token a);
     autoReconnect := over (given_autoReconnect b) (autoReconnect a);
     reconnectInterval := over (given_reconnectInterval b) (reconnectInterval a);
     reconnectIntervalMultiplier :=
       over (given_reconnectIntervalMultiplier b) (reconnectIntervalMultiplier a) |}.

Record Client := {
  id : string;
  opts : Options;
  socket : option nat;
  handlers : list Handler;
  callbacks : N;
  reconnectTries : Z;
  destroyed : bool;
}.

Inductive Settlement :=
| Pending
| Fulfilled (v : json)
| Rejected (e : Exn).

Record WebSocket := {
  sent : list PacketData;
  opened : bool;
  closed : bool;
}.

Inductive Emitted :=
| EvError (e : Exn)
| EvClose (code : Z)
| EvConnect.

Record Timer := {
  delay : option Z;
  fired : bool;
}.

(** A run of the [async] function [connect], parked at one of its [await]s. *)
Inductive Task :=
| AwaitToken
| AwaitOpen (sock : nat)
| AwaitLogin (p : nat)
| Finished
| Failed (e : Exn).

Record World := {
  client : Client;
  next_ref : nat;
  promises : list Settlement;
  sockets : list WebSocket;
  emitted : list Emitted;
  timers : list Timer;
  invoked : list (nat * json);
  tasks : list Task;
  error_listeners : nat;
}.

(** Field updates. *)
Definition set_opts (c : Client) (o : Options) : Client :=
  {| id := id c; opts := o; socket := socket c; handlers := handlers c;
     callbacks := callbacks c; reconnectTries := reconnectTries c;
     destroyed := destroyed c |}.

Definition set_socket (c : Client) (sk : option nat) : Client :=
  {| id := id c; opts := opts c; socket := sk; handlers := handlers c;
     callbacks := callbacks c; reconnectTries := reconnectTries c;
     destroyed := destroyed c |}.

Definition set_handlers (c : Client) (hs : list Handler) : Client :=
  {| id := id c; opts := opts c; socket := socket c; handlers := hs;
     callbacks := callbacks c; reconnectTries := reconnectTries c;
     destroyed := destroyed c |}.

Definition set_callbacks (c : Client) (k : N) : Client :=
  {| id := id c; opts := opts c; socket := socket c; handlers := handlers c;
     callbacks := k; reconnectTries := reconnectTries c;
     destroyed := destroyed c |}.

Definition set_reconnectTries (c : Client) (k : Z) : Client :=
  {| id := id c; opts := opts c; socket := socket c; handlers := handlers c;
     callbacks := callbacks c; reconnectTries := k;
     destroyed := destroyed c |}.

Definition set_destroyed (c : Client) (b : bool) : Client :=
  {| id := id c; opts := opts c; socket := socket c; handlers := handlers c;
     callbacks := callbacks c; reconnectTries := reconnectTries c;
     destroyed := b |}.

Definition set_token (o : Options) (tk : option string) : Options :=
  {| opt_name := opt_name o; host := host o; port := port o; path := path o;
     token := tk; autoReconnect := autoReconnect o;
     reconnectInterval := reconnectInterval o;
     reconnectIntervalMultiplier := reconnectIntervalMultiplier o |}.

Definition set_host_port (o : Options) (h : option string) (p : option Z) : Options :=
  {| opt_name := opt_name o; host := h; port := p; path := path o;
     token := token o; autoReconnect := autoReconnect o;
     reconnectInterval := reconnectInterval o;
     reconnectIntervalMultiplier := reconnectIntervalMultiplier o |}.

Definition with_client (w : World) (c : Client) : World :=
  {| client := c; next_ref := next_ref w; promises := promises w;
     sockets := sockets w; emitted := emitted w; timers := timers w;
     invoked := invoked w; tasks := tasks w;
     error_listeners := error_listeners w |}.

Definition set_next_ref (w : World) (r : nat) : World :=
  {| client := client w; next_ref := r; promises := promises w;
     sockets := sockets w; emitted := emitted w; timers := timers w;
     invoked := invoked w; tasks := tasks w;
     error_listeners := error_listeners w |}.

Definition set_promises (w : World) (ps : list Settlement) : World :=
  {| client := client w; next_ref := next_ref w; promises := ps;
     sockets := sockets w; emitted := emitted w; timers := timers w;
     invoked := invoked w; tasks := tasks w;
     error_listeners := error_listeners w |}.

Definition set_sockets (w : World) (ss : list WebSocket) : World :=
  {| client := client w; next_ref := next_ref w; promises := promises w;
     sockets := ss; emitted := emitted w; timers := timers w;
     invoked := invoked w; tasks := tasks w;
     error_listeners := error_listeners w |}.

Definition set_timers (w : World) (ts : list Timer) : World :=
  {| client := client w; next_ref := next_ref w; promises := promises w;
     sockets := sockets w; emitted := emitted w; timers := ts;
     invoked := invoked w; tasks := tasks w;
     error_listeners := error_listeners w |}.

Definition set_tasks (w : World) (ts : list Task) : World :=
  {| client := client w; next_ref := next_ref w; promises := promises w;
     sockets := sockets w; emitted := emitted w; timers := timers w;
     invoked := invoked w; tasks := ts;
     error_listeners := error_listeners w |}.

Definition set_error_listeners (w : World) (k : nat) : World :=
  {| client := client w; next_ref := next_ref w; promises := promises w;
     sockets := sockets w; emitted := emitted w; timers := timers w;
     invoked := invoked w; tasks := tasks w; error_listeners := k |}.

(** [emitted] keeps the events given to [this.emit], in order. *)
Definition log_event (w : World) (e : Emitted) : World :=
  {| client := client w; next_ref := next_ref w; promises := promises w;
     sockets := sockets w; emitted := emitted w ++ [e]; timers := timers w;
     invoked := invoked w; tasks := tasks w;
     error_listeners := error_listeners w |}.

(** [this.emit(...)], inherited from [EventEmitter]: the listeners of the
    event are called, and an ['error'] event that has no listener is thrown
    instead. A listener is application code; it is seen as returning. *)
Definition emit (w : World) (e : Emitted) : World * Completion :=
  match e with
  | EvError err =>
      if Nat.eqb (error_listeners w) 0 then (log_event w e, Throw err)
      else (log_event w e, Normal)
  | _ => (log_event w e, Normal)
  end.

(** [this.on('error', fn)] and [this.off('error', fn)], inherited too. *)
Definition on_error_listener (w : World) (attach : bool) : World :=
  set_error_listeners w
    (if attach then S (error_listeners w) else pred (error_listeners w)).

Definition record_call (w : World) (r : nat) (packet : json) : World :=
  {| client := client w; next_ref := next_ref w; promises := promises w;
     sockets := sockets w; emitted := emitted w; timers := timers w;
     invoked := invoked w ++ [(r, packet)]; tasks := tasks w;
     error_listeners := error_listeners w |}.

(** ** Promises *)

(** [resolve]/[reject] of promise [p]: only the first settlement counts. *)
Definition settle_promise (w : World) (p : nat) (st : Settlement) : World :=
  match promises w !! p with
  | Some Pending => set_promises w (<[p := st]> (promises w))
  | _ => w
  end.

Definition resolve (w : World) (p : nat) (v : json) : World :=
  settle_promise w p (Fulfilled v).

Definition reject (w : World) (p : nat) (e : Exn) : World :=
  settle_promise w p (Rejected e).

(** ** Client *)

(** [new Client(opts)]; [uuid] is the value drawn by [v4()]. *)
Definition new_client (uuid : string) (o : Given) : World :=
  {| client :=
       {| id := uuid; opts := spread DEFAULT_OPTIONS o; socket := None;
          handlers := []; callbacks := 0%N; reconnectTries := 0;
          destroyed := false |};
     next_ref := 0%nat; promises := []; sockets := []; emitted := [];
     timers := []; invoked := []; tasks := []; error_listeners := 0 |}.

(** [handler.name === name && (!type || handler.type === type)] *)
Definition matches (name_ type_ : option json) (h : Handler) : bool :=
  match name_ with
  | Some (JStr nm) => String.eqb (name h) nm
  | _ => false
  end
  && (negb (truthy type_)
      || match type_ with
         | Some (JStr ty) => String.eqb (tag (type h)) ty
         | _ => false
         end).

Definition findHandler (hs : list Handler) (name_ type_ : option json)
  : option Handler :=
  find (matches name_ type_) hs.

(** [this.handlers.indexOf(handler)]: the first slot holding that very
    object, [-1] when there is none (as for [undefined]). *)
Fixpoint index_from (k : Z) (r : nat) (hs : list Handler) : Z :=
  match hs with
  | [] => -1
  | h :: rest => if Nat.eqb (ref h) r then k else index_from (k + 1) r rest
  end.

Definition indexOf (hs : list Handler) (h : option Handler) : Z :=
  match h with
  | None => -1
  | Some h => index_from 0 (ref h) hs
  end.

(** [this.handlers.splice(index, 1)] for [index > -1]. *)
Definition splice1 (hs : list Handler) (index : Z) : list Handler :=
  delete (Z.to_nat index) hs.

(** [v === z] for a number literal [z]. *)
Definition strict_eq_num (v : json) (z : Z) : bool :=
  match v with
  | JNum z' => z' =? z
  | _ => false
  end.

(** The closure pushed by [send]: reads [packet.data.d.status]; the
    template literal of the rejection converts the status to a string. *)
Definition settle (w : World) (p : nat) (packet : json) : World * Completion :=
  match get_prop packet "d" with
  | None =>
      (w, Throw (TypeError "Cannot read properties of undefined (reading 'status')"))
  | Some JNull =>
      (w, Throw (TypeError "Cannot read properties of null (reading 'status')"))
  | Some data =>
      match get_prop data "status" with
      | Some status =>
          if strict_eq_num status 200 then (resolve w p data, Normal)
          else
            match to_string status with
            | Some text => (reject w p (Error ("Response code: " +:+ text)), Normal)
            | None => (w, Throw (TypeError "Cannot convert object to primitive value"))
            end
      | None => (resolve w p data, Normal)
      end
  end.

(** [handler.handler(packet)] *)
Definition invoke (w : World) (h : Handler) (packet : json) : World * Completion :=
  match handler h with
  | Settle p => settle w p packet
  | UserFn f => (record_call w (ref h) packet, f packet)
  end.

Definition is_callback (ty : option json) : bool :=
  match ty with
  | Some (JStr ty) => String.eqb ty "callback"
  | _ => false
  end.

(** [handle], from [if (!handler)] on: [handler] and [index] are what the
    lookup has left. *)
Definition dispatch (w : World) (packet : json) (h : option Handler) (index : Z)
  : World * Completion :=
  match h with
  | None => emit w (EvError (Error "Invalid packet"))
  | Some h =>
      match invoke w h packet with
      | (w1, Throw e) => (w1, Throw e)
      | (w1, Normal) =>
          if index >? -1 then
            (with_client w1
               (set_handlers (client w1) (splice1 (handlers (client w1)) index)),
             Normal)
          else (w1, Normal)
      end
  end.

Definition handle (w : World) (packet : json) : World * Completion :=
  let hs := handlers (client w) in
  if is_callback (get_prop packet "t") then
    match String_ (get_prop packet "i") with
    | Some i_ =>
        let h := findHandler hs (Some (JStr i_)) (Some (JStr "callback")) in
        dispatch w packet h (indexOf hs h)
    | None => (w, Throw (TypeError "Cannot convert object to primitive value"))
    end
  else
    dispatch w packet (findHandler hs (get_prop packet "n") (get_prop packet "t"))
      (-1).

(** [this.socket.send(JSON.stringify(data))]: the frame is handed to the
    current transport; without a transport the property read fails. *)
Definition push_frame (data : PacketData) (sk : WebSocket) : WebSocket :=
  {| sent := sent sk ++ [data]; opened := opened sk; closed := closed sk |}.

Definition write (w : World) (data : PacketData) : World * Completion :=
  match socket (client w) with
  | None => (w, Throw (TypeError "Cannot read properties of undefined (reading 'send')"))
  | Some k => (set_sockets w (alter (push_frame data) k (sockets w)), Normal)
  end.

(** [this.handlers.push({...})]: a new object at a new address. *)
Definition push_handler (w : World) (nm : string) (ty : PacketType)
    (f : HandlerFunction) : World :=
  let h := {| ref := next_ref w; name := nm; type := ty; handler := f |} in
  with_client (set_next_ref w (S (next_ref w)))
    (set_handlers (client w) (handlers (client w) ++ [h])).

(** [send]: the executor of the new promise runs at once; an exception in it
    rejects the promise. The result is the world and the promise returned. *)
Definition send (w : World) (ty : PacketType) (path_ : string)
    (data : option json) : World * nat :=
  let p := length (promises w) in
  let w := set_promises w (promises w ++ [Pending]) in
  let parts := split_slash path_ in
  let id_ := id (client w) +:+ "-" +:+ pretty (callbacks (client w)) in
  let w := with_client w (set_callbacks (client w) (callbacks (client w) + 1)%N) in
  let w := push_handler w id_ Callback (Settle p) in
  match write w {| s := head parts; n := Some (join "/" (tail parts));
                   d := data; i := id_; t := ty |} with
  | (w, Throw e) => (reject w p e, p)
  | (w, Normal) => (w, p)
  end.

Definition call (w : World) (path_ : string) (data : option json) : World * nat :=
  send w Call path_ data.

Definition watch (w : World) (path_ : string) (data : option json) : World * nat :=
  send w Watch path_ data.

Definition registerHandler (w : World) (nm : string) (ty : PacketType)
    (f : json -> Completion) : World :=
  push_handler w nm ty (UserFn f).

Definition registerMethod (w : World) (nm : string) (f : json -> Completion) : World :=
  registerHandler w nm Call f.

Definition registerWatcher (w : World) (nm : string) (f : json -> Completion) : World :=
  registerHandler w nm Watch f.

(** [destroy]: [this.socket.close()] comes first. *)
Definition close_socket (sk : WebSocket) : WebSocket :=
  {| sent := sent sk; opened := opened sk; closed := true |}.

Definition destroy (w : World) : World * Completion :=
  match socket (client w) with
  | None => (w, Throw (TypeError "Cannot read properties of undefined (reading 'close')"))
  | Some k =>
      let w := set_sockets w (alter close_socket k (sockets w)) in
      (with_client w (set_destroyed (client w) true), Normal)
  end.

(** ** connect *)

Definition nonempty (x : option string) : bool :=
  match x with
  | Some v => negb (String.eqb v "")
  | None => false
  end.

Definition nonzero (x : option Z) : bool :=
  match x with
  | Some v => negb (v =? 0)
  | None => false
  end.

(** From [new WebSocket(...)] to [await onceOpen()]. *)
Definition open_socket (w : World) (task : nat) : World :=
  let k := length (sockets w) in
  let w := set_sockets w (sockets w ++ [{| sent := []; opened := false; closed := false |}]) in
  let w := with_client w (set_socket (client w) (Some k)) in
  set_tasks w (<[task := AwaitOpen k]> (tasks w)).

(** [connect()] up to its first [await]. *)
Definition connect (w : World) : World :=
  let o := opts (client w) in
  let o := set_host_port o
             (if nonempty (host o) then host o else Some DEFAULT_HOST)
             (if nonzero (port o) then port o else Some DEFAULT_PORT) in
  let w := with_client w (set_opts (client w) o) in
  let task := length (tasks w) in
  let w := set_tasks w (tasks w ++ [AwaitToken]) in
  if nonempty (token o) then open_socket w task else w.

(** [getServiceToken()] has settled: [Some tk] when fulfilled with [tk],
    [None] when rejected. *)
Definition token_settled (w : World) (task : nat) (r : option string) : World :=
  match tasks w !! task with
  | Some AwaitToken =>
      let tk := match r with Some tk => tk | None => "" end in
      let w := with_client w (set_opts (client w) (set_token (opts (client w)) (Some tk))) in
      open_socket w task
  | _ => w
  end.

(** The payload [{ s: this.opts.name }] as it is serialised. *)
Definition login_payload (o : Options) : json :=
  match opt_name o with
  | Some nm => JObj [("s", JStr nm)]
  | None => JObj []
  end.

(** The continuation of [connect] after an [await] whose promise has
    settled; a task whose promise is still pending stays parked. *)
Definition resume (w : World) (task : nat) : World :=
  match tasks w !! task with
  | Some (AwaitOpen k) =>
      match sockets w !! k with
      | Some sk =>
          if opened sk then
            let '(w, p) := call w "auth/login" (Some (login_payload (opts (client w)))) in
            set_tasks w (<[task := AwaitLogin p]> (tasks w))
          else w
      | None => w
      end
  | Some (AwaitLogin p) =>
      match promises w !! p with
      | Some (Fulfilled _) =>
          let w := with_client w (set_reconnectTries (client w) 0) in
          match emit w EvConnect with
          | (w, Normal) => set_tasks w (<[task := Finished]> (tasks w))
          | (w, Throw e) => set_tasks w (<[task := Failed e]> (tasks w))
          end
      | Some (Rejected e) => set_tasks w (<[task := Failed e]> (tasks w))
      | _ => w
      end
  | _ => w
  end.

(** ** registerEvents: the listeners put on a socket *)

Definition mark_open (sk : WebSocket) : WebSocket :=
  {| sent := sent sk; opened := true; closed := closed sk |}.

(** ['open']: the [once] listener of [onceOpen] fulfils its promise. *)
Definition on_open (w : World) (k : nat) : World :=
  set_sockets w (alter mark_open k (sockets w)).

Definition on_error (w : World) (err : Exn) : World * Completion :=
  emit w (EvError err).

Definition times (a b : option Z) : option Z :=
  match a, b with
  | Some x, Some y => Some (x * y)
  | _, _ => None
  end.

Definition is_true (b : option bool) : bool :=
  match b with Some true => true | _ => false end.

Definition setTimeout (w : World) (ms : option Z) : World :=
  set_timers w (timers w ++ [{| delay := ms; fired := false |}]).

Definition on_close (w : World) (code : Z) : World * Completion :=
  match emit w (EvClose code) with
  | (w, Throw e) => (w, Throw e)
  | (w, Normal) =>
      if is_true (autoReconnect (opts (client w))) then
        let tries := reconnectTries (client w) + 1 in
        let w := with_client w (set_reconnectTries (client w) tries) in
        (setTimeout w
           (times (times (Some tries) (reconnectInterval (opts (client w))))
              (reconnectIntervalMultiplier (opts (client w)))),
         Normal)
      else (w, Normal)
  end.

(** The callback given to [setTimeout] by the ['close'] listener. *)
Definition timer_fire (w : World) (k : nat) : World :=
  match timers w !! k with
  | Some tm =>
      if fired tm then w
      else
        let w := set_timers w (<[k := {| delay := delay tm; fired := true |}]> (timers w)) in
        if destroyed (client w) then w else connect w
  | None => w
  end.

Section Session.

(** [JSON.parse] of the runtime: [None] when it throws. *)
Variable JSON_parse : string -> option json.

Definition parseJSON (str : string) (def : json) : json :=
  match JSON_parse str with
  | Some res => res
  | None => def
  end.

(** The ['message'] listener. *)
Definition on_message (w : World) (data : string) : World * Completion :=
  let packet := parseJSON data JNull in
  if truthy (Some packet) then handle w packet else (w, Normal).

(** What can happen to a session: calls of the application on the client,
    events of a socket the client has created, a timer running out, the
    token promise settling, a parked [connect] being resumed. An exception
    that leaves a listener or a timer callback goes to the runtime, not to
    the client: the step keeps the world and drops the completion. *)
Inductive Event :=
| DoConnect
| DoDestroy
| DoSend (ty : PacketType) (path_ : string) (data : option json)
| DoRegister (nm : string) (ty : PacketType) (f : json -> Completion)
| SockOpen (k : nat)
| SockMessage (k : nat) (data : string)
| SockError (k : nat) (err : Exn)
| SockClose (k : nat) (code : Z)
| TimerFire (k : nat)
| TokenSettled (task : nat) (r : option string)
| Resume (task : nat)
| DoListen (attach : bool).

Definition on_socket (w : World) (k : nat) (f : World -> World) : World :=
  match sockets w !! k with
  | Some _ => f w
  | None => w
  end.

Definition fire (w : World) (ev : Event) : World :=
  match ev with
  | DoConnect => connect w
  | DoDestroy => fst (destroy w)
  | DoSend ty path_ data => fst (send w ty path_ data)
  | DoRegister nm ty f => registerHandler w nm ty f
  | SockOpen k => on_socket w k (fun w => on_open w k)
  | SockMessage k data => on_socket w k (fun w => fst (on_message w data))
  | SockError k err => on_socket w k (fun w => fst (on_error w err))
  | SockClose k code => on_socket w k (fun w => fst (on_close w code))
  | TimerFire k => timer_fire w k
  | TokenSettled task r => token_settled w task r
  | Resume task => resume w task
  | DoListen attach => on_error_listener w attach
  end.

Definition run (w : World) (evs : list Event) : World :=
  fold_left fire evs w.

End Session.

(** ** Vocabulary of the properties *)

(** An inbound envelope of kind [ty]: an object whose [t] is that tag. *)
Definition kind_is (packet : json) (ty : PacketType) : Prop :=
  get_prop packet "t" = Some (JStr (tag ty)).


(** Addresses in the registry are those handed out so far, each once. *)
Definition wf_registry (w : World) : Prop :=
  NoDup (ref <$> handlers (client w))
  /\ Forall (fun h => (ref h < next_ref w)%nat) (handlers (client w)).

(** The lookup done for a callback envelope: there is none when the
    conversion of its correlation id throws. *)
Definition callback_lookup (w : World) (packet : json) : option Handler :=
  match String_ (get_prop packet "i") with
  | Some i_ =>
      findHandler (handlers (client w)) (Some (JStr i_)) (Some (JStr "callback"))
  | None => None
  end.

(** The correlation id made from the session id and the counter value [k]. *)
Definition pending_id (w : World) (k : N) : string :=
  id (client w) +:+ "-" +:+ pretty k.

(** The correlation ids awaiting a reply: the names of the one-shot entries
    that [send] has pushed and that are still in the registry. *)
Fixpoint pending_ids_of (hs : list Handler) : list string :=
  match hs with
  | [] => []
  | h :: rest =>
      match handler h with
      | Settle _ => name h :: pending_ids_of rest
      | UserFn _ => pending_ids_of rest
      end
  end.

Definition pending_ids (w : World) : list string :=
  pending_ids_of (handlers (client w)).

(** Every one-shot entry is of kind callback and is named by a counter
    value already used. *)
Definition one_shot_ok (w : World) (h : Handler) : Prop :=
  forall p, handler h = Settle p ->
    type h = Callback
    /\ exists k : N, (k < callbacks (client w))%N /\ name h = pending_id w k.

Definition registry_inv (w : World) : Prop :=
  wf_registry w
  /\ NoDup (pending_ids w)
  /\ Forall (one_shot_ok w) (handlers (client w)).

(** Two worlds with the same registry, counter and allocator. *)
Definition same_registry (w w' : World) : Prop :=
  id (client w') = id (client w)
  /\ handlers (client w') = handlers (client w)
  /\ callbacks (client w') = callbacks (client w)
  /\ next_ref w' = next_ref w.

(** The correlation id of a call is made from the index of its promise:
    the counter and the number of promises grow together. *)
Definition naming_inv (w : World) : Prop :=
  N.of_nat (length (promises w)) = callbacks (client w)
  /\ Forall (fun h => forall p, handler h = Settle p ->
                name h = pending_id w (N.of_nat p) /\ type h = Callback)
       (handlers (client w)).

(** The number of ['close'] events emitted since the last ['connect']
    event (since the beginning when there was none). *)
Definition count_close (acc : Z) (e : Emitted) : Z :=
  match e with
  | EvConnect => 0
  | EvClose _ => acc + 1
  | EvError _ => acc
  end.

Definition closes_since_connect (l : list Emitted) : Z :=
  fold_left count_close l 0.

(** The part of the configuration the backoff reads. *)
Definition backoff_conf (w : World) : option bool * option Z * option Z :=
  (autoReconnect (opts (client w)), reconnectInterval (opts (client w)),
   reconnectIntervalMultiplier (opts (client w))).

(** The timer callback has run: the timer is spent. *)
Definition spend (w : World) (k : nat) : World :=
  match timers w !! k with
  | Some tm => set_timers w (<[k := {| delay := delay tm; fired := true |}]> (timers w))
  | None => w
  end.

Section Reachability.

Variable JSON_parse : string -> option json.

(** The worlds a session can be in: a new client, then any events. *)
Inductive reachable : World -> Prop :=
| reach_new (uuid : string) (o : Given) : reachable (new_client uuid o)
| reach_fire (w : World) (ev : Event) :
    reachable w -> reachable (fire JSON_parse w ev).

End Reachability.


(** [this.socket], once set, is one of the sockets created. *)
Definition socket_ok (w : World) : Prop :=
  match socket (client w) with
  | Some k => (k < length (sockets w))%nat
  | None => sockets w = []
  end.



(** The payloads on which the handler of a call calls [resolve]. *)
Definition fulfils (payload : json) : Prop :=
  payload <> JNull
  /\ (get_prop payload "status" = None
      \/ get_prop payload "status" = Some (JNum 200)).

(** The payloads on which the handler of a call returns: neither absent
    nor [null], with a status, if any, that converts to a string. *)
Definition settles (payload : json) : Prop :=
  payload <> JNull
  /\ forall status, get_prop payload "status" = Some status ->
       is_Some (to_string status).


(** A call that is pending has its entry in the registry. *)
Definition pending_inv (w : World) : Prop :=
  forall p, promises w !! p = Some Pending ->
    exists h, h ∈ handlers (client w) /\ handler h = Settle p.

(** No handler registered by the application is of kind callback and named
    [X]. *)
Definition unclaimed (w : World) (X : string) : Prop :=
  forall h, h ∈ handlers (client w) -> name h = X -> type h = Callback ->
    exists q, handler h = Settle q.

Section Handshake.

Variable JSON_parse : string -> option json.



End Handshake.

(** The step of [connect] after ['open']: the login call is sent and the
    task waits for its promise. *)
Definition begin_login (w : World) (task : nat) : World :=
  let w1 := fst (call w "auth/login" (Some (login_payload (opts (client w))))) in
  set_tasks w1 (<[task := AwaitLogin (length (promises w))]> (tasks w1)).


(** ** A sample session, for the instances below *)

Definition demo_callback (i_ : string) (payload : option json) : json :=
  JObj ([("t", JStr "callback"); ("i", JStr i_)]
        ++ match payload with Some v => [("d", v)] | None => [] end).

Definition demo_add_ok : json :=
  JObj [("status", JNum 200); ("result", JNum 3)].

(** A decoder that knows a few frames by name and rejects the rest. *)
Definition demo_parse (str : string) : option json :=
  if String.eqb str "login-ok" then
    Some (demo_callback "U-0" (Some (JObj [("status", JNum 200)])))
  else if String.eqb str "add-ok" then Some (demo_callback "U-1" (Some demo_add_ok))
  else if String.eqb str "add-500" then
    Some (demo_callback "U-1" (Some (JObj [("status", JNum 500)])))
  else if String.eqb str "add-bare" then Some (demo_callback "U-1" None)
  else if String.eqb str "add-odd" then
    Some (demo_callback "U-1"
            (Some (JObj [("status", JObj [("toString", JNum 1)])])))
  else if String.eqb str "login-kindless" then
    Some (JObj [("n", JStr "U-0"); ("d", JObj [])])
  else if String.eqb str "ping" then
    Some (JObj [("t", JStr "call"); ("n", JStr "ping"); ("i", JStr "x")])
  else None.

Definition demo_options : Given :=
  {| given_name := Some (Some "svc"); given_host := None; given_port := None;
     given_path := None; given_token := Some (Some "tok");
     given_autoReconnect := None; given_reconnectInterval := None;
     given_reconnectIntervalMultiplier := None |}.

Definition demo_new : World := new_client "U" demo_options.

(** Connected and logged in. *)
Definition demo_login : list Event :=
  [DoConnect; SockOpen 0; Resume 0; SockMessage 0 "login-ok"; Resume 0].

Definition demo_open : World := run demo_parse demo_new demo_login.

(** After [call('math/add', {a:1,b:2})]: promise 1 awaits the reply to "U-1". *)
Definition demo_pending : World :=
  fst (call demo_open "math/add" (Some (JObj [("a", JNum 1); ("b", JNum 2)]))).

Definition demo_entry : Handler :=
  {| ref := 1; name := "U-1"; type := Callback; handler := Settle 1 |}.

(** The same session with an ['error'] listener attached. *)
Definition demo_listening : World := on_error_listener demo_pending true.

(** The application has registered a callback handler under the id the
    next call will get, and then makes the call. *)
Definition demo_claimed : World :=
  fst (call (registerHandler demo_open "U-1" Callback (fun _ => Normal))
         "math/add" (Some (JObj [("a", JNum 1); ("b", JNum 2)]))).


(** The session of the backoff scenario: closed with code 1006 after a
    successful login, reconnected by the first timer. *)
Definition demo_dropped : list Event :=
  demo_login ++ [SockClose 0 1006; TimerFire 0].

(** ** More of the client *)

Fixpoint contains_slash (str : string) : bool :=
  match str with
  | EmptyString => false
  | String c rest => Ascii.eqb c "/"%char || contains_slash rest
  end.

(** The frame written last on a socket. *)
Definition last_sent (w : World) (k : nat) : option PacketData :=
  match sockets w !! k with
  | Some sk => last (sent sk)
  | None => None
  end.

(** [handle] applied [times] times to the same envelope. *)
Definition dispatch_times (times : nat) (w : World) (packet : json) : World :=
  Nat.iter times (fun w => fst (handle w packet)) w.

(** The first handler registered under a name, whatever its kind. *)
Definition first_named (hs : list Handler) (nm : string) : option Handler :=
  find (fun h => String.eqb (name h) nm) hs.

(** A decoder for frames that are valid JSON and no envelope. *)
Definition demo_parse_values (str : string) : option json :=
  if String.eqb str "null" then Some JNull
  else if String.eqb str "0" then Some (JNum 0)
  else if String.eqb str "42" then Some (JNum 42)
  else if String.eqb str "[]" then Some (JArr [])
  else None.

(** The getters [protocol], [wsProtocol] and [wsEndpoint], and the base URL
    given to Axios by [initAxios]; an undefined option prints as
    [undefined] in a template literal. *)
Definition protocol (c : Client) : string :=
  match port (opts c) with
  | Some 443 => "https"
  | _ => "http"
  end.

Definition wsProtocol (c : Client) : string :=
  match port (opts c) with
  | Some 443 => "wss"
  | _ => "ws"
  end.

Definition show_string (x : option string) : string :=
  match x with
  | Some v => v
  | None => "undefined"
  end.

Definition show_number (x : option Z) : string :=
  match x with
  | Some v => pretty v
  | None => "undefined"
  end.

Definition wsEndpoint (c : Client) : string :=
  wsProtocol c +:+ "://" +:+ show_string (host (opts c)) +:+ ":"
  +:+ show_number (port (opts c)) +:+ show_string (path (opts c)).

Definition baseURL (c : Client) : string :=
  protocol c +:+ "://" +:+ show_string (host (opts c)) +:+ ":"
  +:+ show_number (port (opts c)).

(** The socket a new [connect] creates. *)
Definition fresh_socket : WebSocket :=
  {| sent := []; opened := false; closed := false |}.

(** The number of calls of [connect()] by the application. *)
Fixpoint connect_calls (evs : list Event) : nat :=
  match evs with
  | [] => 0
  | DoConnect :: rest => S (connect_calls rest)
  | _ :: rest => connect_calls rest
  end.

(** [this.socket] is the socket created last. *)
Definition socket_is_latest (w : World) : Prop :=
  match socket (client w) with
  | Some k => S k = length (sockets w)
  | None => sockets w = []
  end.

(** The events that leave the registry and the promises alone. *)
Definition silent (ev : Event) : bool :=
  match ev with
  | DoConnect | DoDestroy | SockOpen _ | SockError _ _ | SockClose _ _
  | TimerFire _ | TokenSettled _ _ | DoListen _ => true
  | DoSend _ _ _ | DoRegister _ _ _ | SockMessage _ _ | Resume _ => false
  end.

(** Events of the connection: everything but a call sent or a handler
    registered by the application and a frame received. The continuation
    of [connect], which sends the login call once the socket is open, is
    one of them. *)
Definition lifecycle (ev : Event) : bool :=
  match ev with
  | DoConnect | DoDestroy | SockOpen _ | SockError _ _ | SockClose _ _
  | TimerFire _ | TokenSettled _ _ | Resume _ | DoListen _ => true
  | DoSend _ _ _ | DoRegister _ _ _ | SockMessage _ _ => false
  end.

(** An envelope as the peer decodes it: [JSON.stringify] leaves out the
    keys whose value is undefined, [JSON.parse] gives the object back. *)
Definition on_wire (data : PacketData) : json :=
  JObj ([("t", JStr (tag (t data))); ("i", JStr (i data))]
        ++ match s data with Some v => [("s", JStr v)] | None => [] end
        ++ match n data with Some v => [("n", JStr v)] | None => [] end
        ++ match d data with Some v => [("d", v)] | None => [] end).

(** [Packet.respond], on a packet whose [data] is [this_data]. *)
Definition respond (w : World) (this_data : PacketData) (data : option json)
  : World * Completion :=
  write w {| d := data; t := Callback; s := s this_data; i := i this_data;
             n := None |}.

(** Connected, the login call sent and not yet answered. *)
Definition demo_authenticating : World :=
  run demo_parse demo_new [DoConnect; SockOpen 0; Resume 0].

Definition demo_login_entry : Handler :=
  {| ref := 0; name := "U-0"; type := Callback; handler := Settle 0 |}.

(** * Properties *)

(** ** The registry: [find], [indexOf], [splice] *)

Lemma find_lookup (P : Handler -> bool) (hs : list Handler) (h : Handler) :
  find P hs = Some h ->
  exists k : nat, hs !! k = Some h /\ P h = true /\
    forall (j : nat) (h' : Handler), (j < k)%nat -> hs !! j = Some h' -> P h' = false.
Proof.
  induction hs as [|h0 hs IH]; simpl; [discriminate|].
  destruct (P h0) eqn:E0.
  - intros [= <-]. exists 0%nat. repeat split; auto. intros j h' Hj. lia.
  - intros Hf. destruct (IH Hf) as (k & Hk & HP & Hbefore).
    exists (S k). repeat split; auto.
    intros [|j] h' Hj; simpl.
    + intros [= <-]. exact E0.
    + apply Hbefore. lia.
Qed.

Lemma find_none (P : Handler -> bool) (hs : list Handler) :
  (forall h, h ∈ hs -> P h = false) -> find P hs = None.
Proof.
  induction hs as [|h0 hs IH]; simpl; intros H; [reflexivity|].
  rewrite (H h0) by constructor. apply IH. intros h Hh. apply H. by constructor.
Qed.

Lemma find_unique (P : Handler -> bool) (hs : list Handler) (k : nat) (h : Handler) :
  hs !! k = Some h -> P h = true ->
  (forall (j : nat) (h' : Handler), hs !! j = Some h' -> P h' = true -> j = k) ->
  find P hs = Some h.
Proof.
  revert k. induction hs as [|h0 hs IH]; intros k Hk HP Huniq; [discriminate|].
  destruct k as [|k]; simpl in *.
  - injection Hk as ->. by rewrite HP.
  - destruct (P h0) eqn:E0.
    + specialize (Huniq 0%nat h0 eq_refl E0). discriminate.
    + apply (IH k); auto. intros j h' Hj HP'.
      specialize (Huniq (S j) h' Hj HP'). lia.
Qed.

Lemma index_from_lookup (hs : list Handler) (k : nat) (h : Handler) (z : Z) :
  NoDup (ref <$> hs) -> hs !! k = Some h ->
  index_from z (ref h) hs = z + Z.of_nat k.
Proof.
  revert k z. induction hs as [|h0 hs IH]; intros k z Hnd Hk; [discriminate|].
  rewrite fmap_cons in Hnd. apply NoDup_cons in Hnd as [Hnotin Hnd].
  destruct k as [|k]; simpl in *.
  - injection Hk as ->. rewrite Nat.eqb_refl. lia.
  - destruct (Nat.eqb (ref h0) (ref h)) eqn:E.
    + apply Nat.eqb_eq in E. exfalso. apply Hnotin. rewrite E.
      apply list_elem_of_fmap. exists h. split; [done|].
      apply list_elem_of_lookup. eauto.
    + rewrite (IH k (z + 1)) by assumption. lia.
Qed.

Lemma splice1_index (hs : list Handler) (k : nat) :
  splice1 hs (Z.of_nat k) = delete k hs.
Proof. unfold splice1. by rewrite Nat2Z.id. Qed.

(** [invoke] leaves the client object alone: a handler is seen through the
    promise it settles or through its being called. *)
Lemma settle_promise_client (w : World) (p : nat) (st : Settlement) :
  client (settle_promise w p st) = client w.
Proof. unfold settle_promise. by repeat case_match. Qed.

Lemma settle_promise_next_ref (w : World) (p : nat) (st : Settlement) :
  next_ref (settle_promise w p st) = next_ref w.
Proof. unfold settle_promise. by repeat case_match. Qed.

Arguments settle_promise : simpl never.

Lemma invoke_client (w : World) (h : Handler) (packet : json) :
  client (fst (invoke w h packet)) = client w.
Proof.
  unfold invoke, settle, resolve, reject.
  repeat case_match; simpl; auto using settle_promise_client.
Qed.


(** [emit]: the event is logged; only an ['error'] without listener throws. *)
Lemma emit_fst (w : World) (e : Emitted) : fst (emit w e) = log_event w e.
Proof. unfold emit. destruct e; [destruct (Nat.eqb _ _)|..]; reflexivity. Qed.

Lemma emit_error (w : World) (err : Exn) :
  emit w (EvError err)
  = (log_event w (EvError err),
     if Nat.eqb (error_listeners w) 0 then Throw err else Normal).
Proof. unfold emit. by destruct (Nat.eqb _ _). Qed.

Lemma emit_error_snd (w : World) (err : Exn) :
  (error_listeners w <> 0%nat -> snd (emit w (EvError err)) = Normal)
  /\ (error_listeners w = 0%nat -> snd (emit w (EvError err)) = Throw err).
Proof.
  rewrite emit_error. simpl. split; intros H.
  - by apply Nat.eqb_neq in H as ->.
  - by rewrite H.
Qed.

(** What [handle] does once the lookup is known. *)
Lemma handle_cases (w : World) (packet : json) :
  (exists msg, handle w packet = (w, Throw (TypeError msg)))
  \/ exists h index,
       handle w packet = dispatch w packet h index
       /\ (index = -1 \/ index = indexOf (handlers (client w)) h)
       /\ (forall h', h = Some h' -> h' ∈ handlers (client w)).
Proof.
  assert (forall P h', find P (handlers (client w)) = Some h' ->
                       h' ∈ handlers (client w)) as Hin.
  { intros P h' Hf. apply find_lookup in Hf as (k & Hk & _).
    apply list_elem_of_lookup. eauto. }
  unfold handle, findHandler.
  destruct (is_callback _); [destruct (String_ _)|]; eauto 8.
Qed.

Lemma callback_lookup_id (w : World) (packet : json) (h : Handler) :
  callback_lookup w packet = Some h ->
  String_ (get_prop packet "i") = Some (name h)
  /\ findHandler (handlers (client w)) (Some (JStr (name h)))
       (Some (JStr "callback")) = Some h.
Proof.
  unfold callback_lookup. destruct (String_ _) as [i_|]; [|discriminate].
  intros Hfind. pose proof Hfind as Hm.
  unfold findHandler in Hm. apply find_some in Hm as [_ Hm].
  unfold matches in Hm. apply andb_true_iff in Hm as [Hn _].
  apply String.eqb_eq in Hn. by subst i_.
Qed.

Lemma handle_callback_found (w : World) (packet : json) (h : Handler) :
  is_callback (get_prop packet "t") = true ->
  callback_lookup w packet = Some h ->
  handle w packet
  = dispatch w packet (Some h) (indexOf (handlers (client w)) (Some h)).
Proof.
  intros Hcb Hfind. destruct (callback_lookup_id w packet h Hfind) as [Hi Hf].
  unfold handle. by rewrite Hcb, Hi, Hf.
Qed.

Lemma handle_no_handler (w : World) (packet : json) :
  (if is_callback (get_prop packet "t")
   then is_Some (String_ (get_prop packet "i")) /\ callback_lookup w packet = None
   else findHandler (handlers (client w)) (get_prop packet "n") (get_prop packet "t")
        = None) ->
  handle w packet = emit w (EvError (Error "Invalid packet")).
Proof.
  unfold handle, callback_lookup. destruct (is_callback _).
  - intros [[i_ Hi] Hnone]. rewrite Hi in *. by rewrite Hnone.
  - by intros ->.
Qed.

Lemma handle_callback (w : World) (packet : json) (h : Handler) (k : nat) :
  is_callback (get_prop packet "t") = true ->
  callback_lookup w packet = Some h ->
  NoDup (ref <$> handlers (client w)) ->
  handlers (client w) !! k = Some h ->
  handle w packet =
    match invoke w h packet with
    | (w1, Throw e) => (w1, Throw e)
    | (w1, Normal) =>
        (with_client w1 (set_handlers (client w1) (delete k (handlers (client w1)))),
         Normal)
    end.
Proof.
  intros Hcb Hfind Hnd Hk. rewrite (handle_callback_found w packet h Hcb Hfind).
  unfold dispatch, indexOf. rewrite (index_from_lookup _ k h 0 Hnd Hk).
  destruct (invoke w h packet) as [w1 [|e]]; [|reflexivity].
  replace (0 + Z.of_nat k) with (Z.of_nat k) by lia.
  rewrite splice1_index.
  destruct (Z.gtb_spec (Z.of_nat k) (-1)); [reflexivity | lia].
Qed.

Lemma handle_other (w : World) (packet : json) (h : Handler) :
  is_callback (get_prop packet "t") = false ->
  findHandler (handlers (client w)) (get_prop packet "n") (get_prop packet "t") = Some h ->
  handle w packet = invoke w h packet.
Proof.
  intros Hcb Hfind. unfold handle. rewrite Hcb, Hfind. unfold dispatch.
  destruct (invoke w h packet) as [w1 [|e]]; reflexivity.
Qed.


Lemma tag_inj (a b : PacketType) : tag a = tag b -> a = b.
Proof. destruct a, b; simpl; congruence. Qed.

Lemma matches_tag (nm : option json) (ty : PacketType) (h : Handler) :
  matches nm (Some (JStr (tag ty))) h = true <->
  nm = Some (JStr (name h)) /\ type h = ty.
Proof.
  unfold matches. rewrite andb_true_iff. split.
  - intros [Hn Ht]. split.
    + destruct nm as [[]|]; try discriminate.
      apply String.eqb_eq in Hn. by rewrite Hn.
    + assert (truthy (Some (JStr (tag ty))) = true) as Htr by by destruct ty.
      rewrite Htr in Ht. simpl in Ht. apply String.eqb_eq in Ht. by apply tag_inj.
  - intros [-> <-]. split.
    + apply String.eqb_refl.
    + rewrite String.eqb_refl. apply orb_true_r.
Qed.

Lemma handle_promises (w : World) (packet : json) (h : Handler) :
  is_callback (get_prop packet "t") = true ->
  callback_lookup w packet = Some h ->
  promises (fst (handle w packet)) = promises (fst (invoke w h packet))
  /\ snd (handle w packet) = snd (invoke w h packet).
Proof.
  intros Hcb Hfind. rewrite (handle_callback_found w packet h Hcb Hfind).
  unfold dispatch.
  destruct (invoke w h packet) as [w1 [|e]]; simpl; [|done].
  by destruct (_ >? _).
Qed.

Lemma strict_eq_num_spec (v : json) (z : Z) :
  strict_eq_num v z = true <-> v = JNum z.
Proof.
  destruct v; simpl; split; try congruence.
  - intros H%Z.eqb_eq. by subst.
  - intros [= ->]. apply Z.eqb_refl.
Qed.

Lemma settle_promise_lookup (w : World) (p : nat) (st : Settlement) :
  promises w !! p = Some Pending ->
  promises (settle_promise w p st) !! p = Some st.
Proof.
  intros Hp. unfold settle_promise. rewrite Hp. simpl.
  apply list_lookup_insert_eq. by eapply lookup_lt_Some.
Qed.

Lemma settle_promise_other (w : World) (p q : nat) (st : Settlement) :
  q <> p -> promises (settle_promise w p st) !! q = promises w !! q.
Proof.
  intros Hne. unfold settle_promise. repeat case_match; auto.
  simpl. by apply list_lookup_insert_ne.
Qed.

Lemma to_string_not_200 (status : json) :
  to_string status = None -> strict_eq_num status 200 = false.
Proof. by destruct status. Qed.

Lemma settle_with_payload (w : World) (p : nat) (packet data : json) :
  get_prop packet "d" = Some data -> data <> JNull ->
  settle w p packet =
    match get_prop data "status" with
    | Some status =>
        if strict_eq_num status 200 then (settle_promise w p (Fulfilled data), Normal)
        else
          match to_string status with
          | Some text =>
              (settle_promise w p (Rejected (Error ("Response code: " +:+ text))),
               Normal)
          | None => (w, Throw (TypeError "Cannot convert object to primitive value"))
          end
    | None => (settle_promise w p (Fulfilled data), Normal)
    end.
Proof.
  intros Hd Hnn. unfold settle, resolve, reject. rewrite Hd.
  destruct data; try congruence; reflexivity.
Qed.

(** On a payload that [settles], the handler of a call returns, having
    called [resolve] or [reject]. *)
Lemma settle_returns (w : World) (p : nat) (packet payload : json) :
  get_prop packet "d" = Some payload -> settles payload ->
  exists st, st <> Pending /\ settle w p packet = (settle_promise w p st, Normal).
Proof.
  intros Hd [Hnn Hconv]. rewrite (settle_with_payload w p packet payload Hd Hnn).
  destruct (get_prop payload "status") as [status|];
    [|eexists; split; [|reflexivity]; discriminate].
  destruct (strict_eq_num status 200);
    [eexists; split; [|reflexivity]; discriminate|].
  destruct (Hconv status eq_refl) as [text ->].
  eexists; split; [|reflexivity]; discriminate.
Qed.

Lemma settle_unconvertible (w : World) (p : nat) (packet payload status : json) :
  get_prop packet "d" = Some payload ->
  get_prop payload "status" = Some status ->
  to_string status = None ->
  settle w p packet
  = (w, Throw (TypeError "Cannot convert object to primitive value")).
Proof.
  intros Hd Hs Hconv.
  assert (payload <> JNull) as Hnn by (intros ->; discriminate).
  rewrite (settle_with_payload w p packet payload Hd Hnn), Hs.
  by rewrite (to_string_not_200 status Hconv), Hconv.
Qed.

Lemma settle_promise_settled (w : World) (p : nat) (st : Settlement) :
  st <> Pending -> promises (settle_promise w p st) !! p <> Some Pending.
Proof.
  intros Hst. unfold settle_promise.
  destruct (promises w !! p) as [[| v | e]|] eqn:Hp; simpl; try congruence.
  rewrite list_lookup_insert_eq by (by eapply lookup_lt_Some). congruence.
Qed.

Section Dispatch.

Variable JSON_parse : string -> option json.

(** C7. An inbound frame that [JSON.parse] rejects is dropped: the listener
    returns normally and the session is exactly as before, so no event was
    emitted, no handler was invoked, and the registry and the promises of
    the pending calls are untouched. *)
Theorem malformed_frame_dropped (w : World) (k : nat) (data : string) :
  JSON_parse data = None ->
  on_message JSON_parse w data = (w, Normal)
  /\ fire JSON_parse w (SockMessage k data) = w.
Proof.
  intros Hparse.
  assert (on_message JSON_parse w data = (w, Normal)) as Hm.
  { unfold on_message, parseJSON. by rewrite Hparse. }
  split; [exact Hm|].
  simpl. unfold on_socket. destruct (sockets w !! k); [|reflexivity].
  by rewrite Hm.
Qed.


End Dispatch.

Lemma demo_pending_handlers : handlers (client demo_pending) = [demo_entry].
Proof. vm_compute. reflexivity. Qed.

Lemma malformed_frame_dropped_demo :
  demo_parse "}{" = None
  /\ on_message demo_parse demo_pending "}{" = (demo_pending, Normal)
  /\ fire demo_parse demo_pending (SockMessage 0 "}{") = demo_pending.
Proof.
  split; [reflexivity|].
  apply (malformed_frame_dropped demo_parse demo_pending 0 "}{").
  reflexivity.
Defined.




(** C9. A callback envelope whose lookup finds the one-shot entry of a
    call, and whose payload [d] is absent or [null], makes that handler throw
    a [TypeError] on reading [status]; the exception leaves [handle], the
    world is left exactly as it was: the promise of the call is not settled
    and the entry is still in the registry. *)
Theorem callback_without_payload_throws (w : World) (packet : json)
    (h : Handler) (p : nat) :
  is_callback (get_prop packet "t") = true ->
  callback_lookup w packet = Some h ->
  handler h = Settle p ->
  get_prop packet "d" = None \/ get_prop packet "d" = Some JNull ->
  (exists msg, handle w packet = (w, Throw (TypeError msg)))
  /\ promises (fst (handle w packet)) !! p = promises w !! p
  /\ h ∈ handlers (client (fst (handle w packet))).
Proof.
  intros Hcb Hfind Hh Hd.
  assert (exists msg, handle w packet = (w, Throw (TypeError msg))) as [msg E].
  { rewrite (handle_callback_found w packet h Hcb Hfind).
    unfold dispatch, invoke. rewrite Hh. unfold settle.
    destruct Hd as [-> | ->]; eexists; reflexivity. }
  rewrite E. simpl. split; [eauto|]. split; [reflexivity|].
  apply callback_lookup_id in Hfind as [_ Hfind].
  apply find_lookup in Hfind as (k & Hk & _).
  apply list_elem_of_lookup. eauto.
Qed.

Lemma callback_without_payload_throws_demo :
  (exists msg, handle demo_pending (demo_callback "U-1" None)
               = (demo_pending, Throw (TypeError msg)))
  /\ promises (fst (handle demo_pending (demo_callback "U-1" None))) !! 1%nat
     = promises demo_pending !! 1%nat
  /\ demo_entry ∈ handlers (client (fst (handle demo_pending (demo_callback "U-1" None)))).
Proof.
  apply (callback_without_payload_throws demo_pending (demo_callback "U-1" None)
           demo_entry 1).
  - reflexivity.
  - vm_compute. reflexivity.
  - reflexivity.
  - left. reflexivity.
Defined.

(** ** Removal after dispatch *)


Lemma deleted_ref_gone (hs : list Handler) (k : nat) (h : Handler) :
  NoDup (ref <$> hs) -> hs !! k = Some h -> ref h ∉ (ref <$> delete k hs).
Proof.
  intros Hnd Hk. rewrite delete_take_drop.
  rewrite <- (take_drop_middle hs k h Hk) in Hnd.
  rewrite fmap_app, fmap_cons in Hnd.
  apply NoDup_app in Hnd as (_ & Hdisj & Hnd).
  apply NoDup_cons in Hnd as [Hnotin _].
  rewrite fmap_app. intros [Hin|Hin]%elem_of_app.
  - apply (Hdisj _ Hin). by left.
  - contradiction.
Qed.

Lemma push_handler_wf (w : World) (nm : string) (ty : PacketType) (f : HandlerFunction) :
  wf_registry w -> wf_registry (push_handler w nm ty f).
Proof.
  intros [Hnd Hlt]. unfold wf_registry, push_handler. simpl. split.
  - rewrite fmap_app. apply NoDup_app.
    split; [exact Hnd|]. split; [|apply NoDup_singleton].
    intros r Hr Hr'. apply list_elem_of_singleton in Hr'. simpl in Hr'. subst r.
    apply list_elem_of_fmap in Hr as (h & Hh & Hin).
    rewrite Forall_forall in Hlt. specialize (Hlt h Hin). lia.
  - apply Forall_app. split.
    + eapply Forall_impl; [exact Hlt|]. simpl. intros; lia.
    + apply Forall_singleton. simpl. lia.
Qed.

Lemma callback_removed (w : World) (packet : json) (h : Handler) :
  NoDup (ref <$> handlers (client w)) ->
  is_callback (get_prop packet "t") = true ->
  callback_lookup w packet = Some h ->
  snd (invoke w h packet) = Normal ->
  exists k : nat, handlers (client w) !! k = Some h
    /\ handle w packet
       = (with_client (fst (invoke w h packet))
            (set_handlers (client w) (delete k (handlers (client w)))), Normal).
Proof.
  intros Hnd Hcb Hfind Hret.
  destruct (callback_lookup_id w packet h Hfind) as [_ Hf].
  destruct (find_lookup _ _ _ Hf) as (k & Hk & _).
  exists k. split; [exact Hk|].
  rewrite (handle_callback w packet h k Hcb Hfind Hnd Hk).
  pose proof (invoke_client w h packet) as Hc.
  destruct (invoke w h packet) as [w1 r]. simpl in *. subst r. by rewrite Hc.
Qed.

Lemma handle_other_kind_client (w : World) (packet : json) :
  is_callback (get_prop packet "t") = false ->
  client (fst (handle w packet)) = client w.
Proof.
  intros Hcb. unfold handle. rewrite Hcb. unfold dispatch.
  destruct (findHandler _ _ _) as [h|]; [|by rewrite emit_fst].
  pose proof (invoke_client w h packet) as Hc.
  destruct (invoke w h packet) as [w1 [|e]]; exact Hc.
Qed.




(** C2, as the code has it. The one-shot entry of a call is removed from
    the registry by the first callback dispatch whose invocation returns.
    The invocation returns when the envelope carries a payload, neither
    absent nor [null], whose status, if it has one, converts to a string:
    the promise is then settled and the entry leaves the registry; when no
    other callback entry bears the same correlation id, a second identical
    envelope finds no handler, and [emit('error', new Error('Invalid
    packet'))] is called, nothing being invoked: the message listener
    returns when an ['error'] listener is attached and throws that error
    when none is. When the status does not convert, the invocation throws
    and the world, the entry included, stays as it was. *)
Theorem one_shot_removed_when_handler_returns (w : World) (packet payload : json)
    (h : Handler) (p : nat) :
  wf_registry w ->
  is_callback (get_prop packet "t") = true ->
  callback_lookup w packet = Some h ->
  handler h = Settle p ->
  get_prop packet "d" = Some payload ->
  (forall h', h' ∈ handlers (client w) ->
     name h' = name h -> type h' = Callback -> ref h' = ref h) ->
  let w1 := fst (handle w packet) in
  (settles payload ->
   snd (handle w packet) = Normal
   /\ (exists k : nat, handlers (client w) !! k = Some h
        /\ handlers (client w1) = delete k (handlers (client w)))
   /\ (ref h ∉ (ref <$> handlers (client w1)))
   /\ promises w1 !! p <> Some Pending
   /\ handle w1 packet = emit w1 (EvError (Error "Invalid packet"))
   /\ invoked (fst (handle w1 packet)) = invoked w
   /\ promises (fst (handle w1 packet)) = promises w1
   /\ (error_listeners w <> 0%nat -> snd (handle w1 packet) = Normal)
   /\ (error_listeners w = 0%nat ->
       snd (handle w1 packet) = Throw (Error "Invalid packet")))
  /\ (forall status, get_prop payload "status" = Some status ->
        to_string status = None ->
        exists msg, handle w packet = (w, Throw (TypeError msg))).
Proof.
  intros Hwf Hcb Hfind Hh Hd Honly w1. split.
  - intros Hsettles.
    destruct (settle_returns w p packet payload Hd Hsettles) as (st & Hst & Hsettle).
    assert (invoke w h packet = (settle_promise w p st, Normal)) as Hinv
      by (unfold invoke; by rewrite Hh).
    destruct (callback_removed w packet h (proj1 Hwf) Hcb Hfind) as (k & Hk & E).
    { by rewrite Hinv. }
    subst w1. rewrite E, Hinv. simpl.
    split; [reflexivity|]. split; [eauto|].
    assert (ref h ∉ (ref <$> delete k (handlers (client w)))) as Hgone
      by (by apply deleted_ref_gone; [apply Hwf|]).
    split; [exact Hgone|]. split; [by apply settle_promise_settled|].
    match goal with |- handle ?x _ = _ /\ _ => set (w1 := x) end.
    assert (handle w1 packet = emit w1 (EvError (Error "Invalid packet"))) as ->.
    { apply handle_no_handler. rewrite Hcb.
      destruct (callback_lookup_id w packet h Hfind) as [Hi Hf].
      split; [eauto|]. unfold callback_lookup. rewrite Hi.
      apply find_none. intros h' Hh'.
      destruct (matches _ _ h') eqn:Em; [|reflexivity].
      apply (matches_tag _ Callback) in Em as [[= Hn'] Hty'].
      exfalso. apply Hgone.
      rewrite <- (Honly h').
      - by apply list_elem_of_fmap_2.
      - eapply elem_of_sublist; [exact Hh'|apply sublist_delete].
      - congruence.
      - exact Hty'. }
    split; [reflexivity|].
    assert (error_listeners w1 = error_listeners w) as Hl.
    { unfold w1. simpl. unfold settle_promise. by repeat case_match. }
    assert (invoked w1 = invoked w) as Hi.
    { unfold w1. simpl. unfold settle_promise. by repeat case_match. }
    destruct (emit_error_snd w1 (Error "Invalid packet")) as [Hon Hoff].
    rewrite Hl in Hon, Hoff. rewrite emit_fst.
    change (invoked (log_event w1 (EvError (Error "Invalid packet"))))
      with (invoked w1).
    rewrite Hi. auto.
  - intros status Hs Hconv.
    rewrite (handle_callback_found w packet h Hcb Hfind).
    unfold dispatch, invoke. rewrite Hh.
    rewrite (settle_unconvertible w p packet payload status Hd Hs Hconv). eauto.
Qed.

Lemma demo_pending_wf : wf_registry demo_pending.
Proof.
  split; rewrite demo_pending_handlers.
  - apply NoDup_singleton.
  - apply Forall_singleton. vm_compute. lia.
Qed.

Lemma demo_add_ok_settles : settles demo_add_ok.
Proof.
  split; [discriminate|]. intros status [= <-]. by eexists.
Qed.

Lemma one_shot_removed_when_handler_returns_demo :
  snd (handle demo_pending (demo_callback "U-1" (Some demo_add_ok))) = Normal
  /\ handlers (client (fst (handle demo_pending (demo_callback "U-1" (Some demo_add_ok)))))
     = []
  /\ emitted (fst (handle
                     (fst (handle demo_pending (demo_callback "U-1" (Some demo_add_ok))))
                     (demo_callback "U-1" (Some demo_add_ok))))
     = [EvConnect; EvError (Error "Invalid packet")]
  /\ snd (handle
            (fst (handle demo_pending (demo_callback "U-1" (Some demo_add_ok))))
            (demo_callback "U-1" (Some demo_add_ok)))
     = Throw (Error "Invalid packet").
Proof.
  destruct (one_shot_removed_when_handler_returns demo_pending
              (demo_callback "U-1" (Some demo_add_ok)) demo_add_ok demo_entry 1)
    as (Hok & _).
  - exact demo_pending_wf.
  - reflexivity.
  - vm_compute. reflexivity.
  - reflexivity.
  - reflexivity.
  - intros h' Hh' _ _. rewrite demo_pending_handlers in Hh'.
    apply list_elem_of_singleton in Hh'. by subst h'.
  - destruct (Hok demo_add_ok_settles) as (Hret & _ & _ & _ & Hsecond & _ & _ & _ & Hoff).
    split; [exact Hret|]. split; [vm_compute; reflexivity|].
    split; [rewrite Hsecond; vm_compute; reflexivity|].
    apply Hoff. vm_compute. reflexivity.
Defined.

(** C2 on the code: a callback without payload makes the one-shot handler
    throw, and the entry is not removed; the same envelope sent again is
    dispatched to it again and no routing error is emitted. The same holds
    with a payload whose status has a key [toString]. *)
Lemma one_shot_kept_when_handler_throws :
  let packet := demo_callback "U-1" None in
  let w1 := fst (handle demo_pending packet) in
  let odd := demo_callback "U-1"
               (Some (JObj [("status", JObj [("toString", JNum 1)])])) in
  callback_lookup demo_pending packet = Some demo_entry
  /\ (exists e, snd (handle demo_pending packet) = Throw e)
  /\ handlers (client w1) = [demo_entry]
  /\ callback_lookup w1 packet = Some demo_entry
  /\ (exists e, snd (handle w1 packet) = Throw e)
  /\ emitted (fst (handle w1 packet)) = emitted demo_pending
  /\ (exists e, snd (handle demo_pending odd) = Throw e)
  /\ handlers (client (fst (handle demo_pending odd))) = [demo_entry].
Proof.
  vm_compute. repeat split; eauto.
Qed.

(** ** The call registry *)

Lemma pending_ids_of_app (hs1 hs2 : list Handler) :
  pending_ids_of (hs1 ++ hs2) = pending_ids_of hs1 ++ pending_ids_of hs2.
Proof.
  induction hs1 as [|h hs1 IH]; simpl; [reflexivity|].
  destruct (handler h); simpl; by rewrite IH.
Qed.

Lemma pending_ids_of_elem (hs : list Handler) (x : string) :
  x ∈ pending_ids_of hs <->
  exists h p, h ∈ hs /\ handler h = Settle p /\ name h = x.
Proof.
  induction hs as [|h hs IH]; simpl.
  - split; [intros H; inversion H | intros (h & p & H & _); inversion H].
  - destruct (handler h) as [p|f] eqn:E.
    + rewrite elem_of_cons, IH. split.
      * intros [->|(h' & p' & Hin & Hs & Hn)].
        -- exists h, p. split; [by left|done].
        -- exists h', p'. split; [by right|done].
      * intros (h' & p' & Hin & Hs & Hn).
        apply elem_of_cons in Hin as [->|Hin]; [by left|]. right. eauto.
    + rewrite IH. split.
      * intros (h' & p' & Hin & Hs & Hn). exists h', p'. split; [by right|done].
      * intros (h' & p' & Hin & Hs & Hn).
        apply elem_of_cons in Hin as [->|Hin]; [congruence|]. eauto.
Qed.

Lemma pending_ids_of_sublist (hs1 hs2 : list Handler) :
  hs1 `sublist_of` hs2 -> pending_ids_of hs1 `sublist_of` pending_ids_of hs2.
Proof.
  induction 1 as [|h hs1 hs2 _ IH|h hs1 hs2 _ IH]; simpl.
  - constructor.
  - destruct (handler h); [by constructor|exact IH].
  - destruct (handler h); [by constructor|exact IH].
Qed.

Lemma pending_ids_of_index (hs : list Handler) (j k : nat) (h1 h2 : Handler)
    (p1 p2 : nat) :
  NoDup (pending_ids_of hs) ->
  hs !! j = Some h1 -> hs !! k = Some h2 ->
  handler h1 = Settle p1 -> handler h2 = Settle p2 ->
  name h1 = name h2 -> j = k.
Proof.
  revert j k. induction hs as [|h hs IH]; intros j k Hnd Hj Hk H1 H2 Hn;
    [discriminate|].
  assert (forall (m : nat) (h' : Handler) (p' : nat) (p0 : nat),
            handler h = Settle p0 -> hs !! m = Some h' ->
            handler h' = Settle p' -> name h = name h' -> False) as Hhead.
  { intros m h' p' p0 E Hm Hs Hnm. simpl in Hnd. rewrite E in Hnd.
    apply NoDup_cons in Hnd as [Hnotin _]. apply Hnotin.
    apply pending_ids_of_elem. exists h', p'. split; [|done].
    apply list_elem_of_lookup. eauto. }
  assert (NoDup (pending_ids_of hs)) as Hnd'.
  { simpl in Hnd. destruct (handler h); [|exact Hnd].
    by apply NoDup_cons in Hnd as [_ ?]. }
  destruct j as [|j], k as [|k]; simpl in *.
  - reflexivity.
  - injection Hj as ->. exfalso. eapply (Hhead k h2); eauto.
  - injection Hk as ->. exfalso. eapply (Hhead j h1); eauto.
  - f_equal. eapply IH; eauto.
Qed.

Lemma pending_id_inj (w : World) (k1 k2 : N) :
  pending_id w k1 = pending_id w k2 -> k1 = k2.
Proof.
  unfold pending_id. intros H.
  apply (inj (String.append _)) in H. apply (inj (String.append _)) in H.
  by apply (inj pretty).
Qed.

Lemma fmap_ref_sublist (hs1 hs2 : list Handler) :
  hs1 `sublist_of` hs2 -> (ref <$> hs1) `sublist_of` (ref <$> hs2).
Proof. induction 1; simpl; by constructor. Qed.

Lemma registry_inv_sublist (w w' : World) :
  id (client w') = id (client w) ->
  callbacks (client w') = callbacks (client w) ->
  next_ref w' = next_ref w ->
  handlers (client w') `sublist_of` handlers (client w) ->
  registry_inv w -> registry_inv w'.
Proof.
  intros Hid Hcb Hnr Hsub ((Hnd & Hlt) & Hids & Hok).
  rewrite Forall_forall in Hlt, Hok.
  repeat split.
  - eapply sublist_NoDup; [exact Hnd|]. by apply fmap_ref_sublist.
  - apply Forall_forall. intros h Hh. rewrite Hnr. apply Hlt.
    eapply elem_of_sublist; eauto.
  - eapply sublist_NoDup; [exact Hids|]. by apply pending_ids_of_sublist.
  - apply Forall_forall. intros h Hh p Hp.
    destruct (Hok h (elem_of_sublist _ _ _ Hh Hsub) p Hp) as (Hty & k & Hk & Hn).
    split; [exact Hty|]. exists k. unfold pending_id in *.
    rewrite Hcb, Hid. auto.
Qed.

Lemma registry_inv_same (w w' : World) :
  same_registry w w' -> registry_inv w -> registry_inv w'.
Proof.
  intros (Hid & Hhs & Hcb & Hn). apply registry_inv_sublist; auto.
  by rewrite Hhs.
Qed.

Lemma invoke_next_ref (w : World) (h : Handler) (packet : json) :
  next_ref (fst (invoke w h packet)) = next_ref w.
Proof.
  unfold invoke, settle, resolve, reject, settle_promise.
  repeat case_match; reflexivity.
Qed.

Lemma settle_promise_emitted (w : World) (p : nat) (st : Settlement) :
  emitted (settle_promise w p st) = emitted w.
Proof. unfold settle_promise. by repeat case_match. Qed.

Lemma settle_promise_tasks (w : World) (p : nat) (st : Settlement) :
  tasks (settle_promise w p st) = tasks w.
Proof. unfold settle_promise. by repeat case_match. Qed.

Lemma settle_promise_sockets (w : World) (p : nat) (st : Settlement) :
  sockets (settle_promise w p st) = sockets w.
Proof. unfold settle_promise. by repeat case_match. Qed.

Lemma settle_promise_timers (w : World) (p : nat) (st : Settlement) :
  timers (settle_promise w p st) = timers w.
Proof. unfold settle_promise. by repeat case_match. Qed.

Lemma settle_promise_length (w : World) (p : nat) (st : Settlement) :
  length (promises (settle_promise w p st)) = length (promises w).
Proof. unfold settle_promise. repeat case_match; auto. simpl. apply length_insert. Qed.

Ltac fields_step :=
  simpl;
  rewrite ?settle_promise_client, ?settle_promise_next_ref,
    ?settle_promise_emitted, ?settle_promise_tasks, ?settle_promise_sockets,
    ?settle_promise_timers; simpl.

Ltac fields := fields_step; repeat (case_match; fields_step); auto.

Lemma invoke_emitted (w : World) (h : Handler) (packet : json) :
  emitted (fst (invoke w h packet)) = emitted w.
Proof. unfold invoke, settle, resolve, reject. fields. Qed.

Lemma invoke_tasks (w : World) (h : Handler) (packet : json) :
  tasks (fst (invoke w h packet)) = tasks w.
Proof. unfold invoke, settle, resolve, reject. fields. Qed.

Lemma invoke_sockets (w : World) (h : Handler) (packet : json) :
  sockets (fst (invoke w h packet)) = sockets w.
Proof. unfold invoke, settle, resolve, reject. fields. Qed.

Lemma invoke_timers (w : World) (h : Handler) (packet : json) :
  timers (fst (invoke w h packet)) = timers w.
Proof. unfold invoke, settle, resolve, reject. fields. Qed.

Lemma invoke_promises_length (w : World) (h : Handler) (packet : json) :
  length (promises (fst (invoke w h packet))) = length (promises w).
Proof.
  unfold invoke, settle, resolve, reject.
  repeat case_match; simpl; auto using settle_promise_length.
Qed.

(** The worlds [handle] can leave: the one it found, when a conversion
    throws; that world with the error event logged, when no handler is
    found; and otherwise what the invocation of the handler found has left,
    with or without the removal. *)
Lemma handle_world (w : World) (packet : json) :
  fst (handle w packet) = w
  \/ fst (handle w packet) = log_event w (EvError (Error "Invalid packet"))
  \/ (exists h, fst (handle w packet) = fst (invoke w h packet))
  \/ (exists h index,
        fst (handle w packet)
        = with_client (fst (invoke w h packet))
            (set_handlers (client w) (splice1 (handlers (client w)) index))).
Proof.
  destruct (handle_cases w packet) as [[msg ->]|(h0 & index & -> & _)]; [by left|].
  right. unfold dispatch. destruct h0 as [h|]; [|left; apply emit_fst].
  right. pose proof (invoke_client w h packet) as Hc.
  destruct (invoke w h packet) as [w1 [|e]] eqn:E; simpl in *.
  - destruct (index >? -1); simpl.
    + right. exists h, index. by rewrite E, Hc.
    + left. exists h. by rewrite E.
  - left. exists h. by rewrite E.
Qed.

Ltac handle_worlds w packet :=
  let h := fresh "h" in
  let index := fresh "index" in
  destruct (handle_world w packet)
    as [-> | [-> | [(h & ->) | (h & index & ->)]]]; simpl.

Lemma handle_registry (w : World) (packet : json) :
  let w1 := fst (handle w packet) in
  id (client w1) = id (client w)
  /\ callbacks (client w1) = callbacks (client w)
  /\ next_ref w1 = next_ref w
  /\ handlers (client w1) `sublist_of` handlers (client w).
Proof.
  handle_worlds w packet;
    rewrite ?invoke_client, ?invoke_next_ref; repeat split; auto.
  apply sublist_delete.
Qed.

Lemma registry_inv_handle (w : World) (packet : json) :
  registry_inv w -> registry_inv (fst (handle w packet)).
Proof.
  destruct (handle_registry w packet) as (? & ? & ? & ?).
  by apply registry_inv_sublist.
Qed.

(** [handle] changes the client object through [this.handlers] only. *)
Lemma handle_client (w : World) (packet : json) :
  client (fst (handle w packet))
  = set_handlers (client w) (handlers (client (fst (handle w packet)))).
Proof.
  assert (forall c, set_handlers c (handlers c) = c) as Hid by by intros [].
  handle_worlds w packet; rewrite ?invoke_client, ?Hid; auto.
Qed.

Lemma handle_emitted (w : World) (packet : json) :
  emitted (fst (handle w packet)) = emitted w
  \/ emitted (fst (handle w packet)) = emitted w ++ [EvError (Error "Invalid packet")].
Proof. handle_worlds w packet; rewrite ?invoke_emitted; auto. Qed.

Lemma handle_tasks (w : World) (packet : json) :
  tasks (fst (handle w packet)) = tasks w.
Proof. handle_worlds w packet; rewrite ?invoke_tasks; auto. Qed.

Lemma handle_sockets (w : World) (packet : json) :
  sockets (fst (handle w packet)) = sockets w.
Proof. handle_worlds w packet; rewrite ?invoke_sockets; auto. Qed.

Lemma handle_timers (w : World) (packet : json) :
  timers (fst (handle w packet)) = timers w.
Proof. handle_worlds w packet; rewrite ?invoke_timers; auto. Qed.

Lemma handle_promises_length (w : World) (packet : json) :
  length (promises (fst (handle w packet))) = length (promises w).
Proof. handle_worlds w packet; rewrite ?invoke_promises_length; auto. Qed.

Lemma registry_inv_push_user (w : World) (nm : string) (ty : PacketType)
    (f : json -> Completion) :
  registry_inv w -> registry_inv (registerHandler w nm ty f).
Proof.
  intros (Hwf & Hids & Hok). repeat split.
  - by apply push_handler_wf.
  - by apply push_handler_wf.
  - unfold pending_ids, registerHandler, push_handler. simpl.
    rewrite pending_ids_of_app. simpl. by rewrite app_nil_r.
  - unfold registerHandler, push_handler. simpl. apply Forall_app. split.
    + exact Hok.
    + apply Forall_singleton. intros p. discriminate.
Qed.

(** What [send] leaves behind. *)
Lemma send_shape (w : World) (ty : PacketType) (path_ : string) (data : option json) :
  let w1 := fst (send w ty path_ data) in
  snd (send w ty path_ data) = length (promises w)
  /\ handlers (client w1)
     = handlers (client w)
       ++ [{| ref := next_ref w; name := pending_id w (callbacks (client w));
              type := Callback; handler := Settle (length (promises w)) |}]
  /\ callbacks (client w1) = (callbacks (client w) + 1)%N
  /\ id (client w1) = id (client w)
  /\ next_ref w1 = S (next_ref w).
Proof.
  unfold send, write, reject. simpl.
  destruct (socket (client w)); simpl; [done|].
  rewrite settle_promise_client, settle_promise_next_ref. done.
Qed.

Lemma registry_inv_send (w : World) (ty : PacketType) (path_ : string)
    (data : option json) :
  registry_inv w -> registry_inv (fst (send w ty path_ data)).
Proof.
  intros ((Hnd & Hlt) & Hids & Hok).
  destruct (send_shape w ty path_ data) as (_ & Hhs & Hcb & Hid & Hnr).
  set (w1 := fst (send w ty path_ data)) in *.
  rewrite Forall_forall in Hlt, Hok.
  unfold registry_inv, wf_registry, pending_ids. rewrite Hhs, Hnr.
  repeat split.
  - rewrite fmap_app. apply NoDup_app.
    split; [exact Hnd|]. split; [|apply NoDup_singleton].
    intros r Hr Hr'. apply list_elem_of_singleton in Hr'. simpl in Hr'. subst r.
    apply list_elem_of_fmap in Hr as (h & Hh & Hin). specialize (Hlt h Hin). lia.
  - apply Forall_app. split.
    + apply Forall_forall. intros h Hh. specialize (Hlt h Hh). lia.
    + apply Forall_singleton. simpl. lia.
  - rewrite pending_ids_of_app. simpl. apply NoDup_app.
    split; [exact Hids|]. split; [|apply NoDup_singleton].
    intros x Hx Hx'. apply list_elem_of_singleton in Hx'. subst x.
    apply pending_ids_of_elem in Hx as (h & p & Hin & Hp & Hn).
    destruct (Hok h Hin p Hp) as (_ & k & Hk & Hnk).
    rewrite Hnk in Hn. apply pending_id_inj in Hn. lia.
  - apply Forall_app. split.
    + apply Forall_forall. intros h Hh p Hp.
      destruct (Hok h Hh p Hp) as (Hty & k & Hk & Hn).
      split; [exact Hty|]. exists k. unfold pending_id in *.
      rewrite Hcb, Hid. split; [lia|exact Hn].
    + apply Forall_singleton. intros p _. simpl. split; [reflexivity|].
      exists (callbacks (client w)). unfold pending_id. rewrite Hcb, Hid.
      split; [lia|reflexivity].
Qed.

Ltac same_registry :=
  unfold same_registry; simpl; repeat (case_match; simpl); auto.

Lemma connect_same (w : World) : same_registry w (connect w).
Proof. unfold connect, open_socket. same_registry. Qed.

Lemma open_socket_same (w : World) (task : nat) : same_registry w (open_socket w task).
Proof. unfold open_socket. same_registry. Qed.

Lemma token_settled_same (w : World) (task : nat) (r : option string) :
  same_registry w (token_settled w task r).
Proof. unfold token_settled, open_socket. same_registry. Qed.

Lemma destroy_same (w : World) : same_registry w (fst (destroy w)).
Proof. unfold destroy. same_registry. Qed.

Lemma on_open_same (w : World) (k : nat) : same_registry w (on_open w k).
Proof. unfold on_open. same_registry. Qed.

Lemma on_error_same (w : World) (err : Exn) : same_registry w (fst (on_error w err)).
Proof. unfold on_error. rewrite emit_fst. same_registry. Qed.

(** The ['close'] listener, the event emitted. *)
Lemma on_close_eq (w : World) (code : Z) :
  on_close w code
  = (if is_true (autoReconnect (opts (client w))) then
       setTimeout
         (with_client (log_event w (EvClose code))
            (set_reconnectTries (client w) (reconnectTries (client w) + 1)))
         (times (times (Some (reconnectTries (client w) + 1))
                   (reconnectInterval (opts (client w))))
            (reconnectIntervalMultiplier (opts (client w))))
     else log_event w (EvClose code),
     Normal).
Proof. unfold on_close. simpl. by destruct (is_true _). Qed.

Lemma on_close_same (w : World) (code : Z) : same_registry w (fst (on_close w code)).
Proof. rewrite on_close_eq. unfold setTimeout. same_registry. Qed.

Lemma timer_fire_same (w : World) (k : nat) : same_registry w (timer_fire w k).
Proof. unfold timer_fire, connect, open_socket. same_registry. Qed.

Lemma on_socket_same (w : World) (k : nat) (f : World -> World) :
  same_registry w (f w) -> same_registry w (on_socket w k f).
Proof. unfold on_socket. same_registry. Qed.

(** The continuation of [connect] that finds the login promise fulfilled. *)
Lemma resume_fulfilled (w : World) (task p : nat) (v : json) :
  tasks w !! task = Some (AwaitLogin p) ->
  promises w !! p = Some (Fulfilled v) ->
  resume w task
  = set_tasks
      (log_event (with_client w (set_reconnectTries (client w) 0)) EvConnect)
      (<[task := Finished]> (tasks w)).
Proof. intros Ht Hp. unfold resume. by rewrite Ht, Hp. Qed.

Lemma resume_cases (w : World) (task : nat) :
  resume w task = w
  \/ (exists k sk, tasks w !! task = Some (AwaitOpen k)
        /\ sockets w !! k = Some sk /\ opened sk = true
        /\ resume w task = begin_login w task)
  \/ (exists p v, tasks w !! task = Some (AwaitLogin p)
        /\ promises w !! p = Some (Fulfilled v)
        /\ resume w task
           = set_tasks
               (log_event (with_client w (set_reconnectTries (client w) 0)) EvConnect)
               (<[task := Finished]> (tasks w)))
  \/ (exists p e, tasks w !! task = Some (AwaitLogin p)
        /\ promises w !! p = Some (Rejected e)
        /\ resume w task = set_tasks w (<[task := Failed e]> (tasks w))).
Proof.
  unfold resume.
  destruct (tasks w !! task) as [[| k | p | | ]|] eqn:Et; auto.
  - destruct (sockets w !! k) as [sk|] eqn:Esk; auto.
    destruct (opened sk) eqn:Eo; auto.
    right. left. exists k, sk. repeat split; auto.
    unfold begin_login, call.
    destruct (send_shape w Call "auth/login"
                (Some (login_payload (opts (client w))))) as (Hp & _).
    destruct (send w Call _ _) as [w1 p1]. simpl in *. by subst p1.
  - destruct (promises w !! p) as [[| v | e]|] eqn:Ep; auto.
    + right. right. left. eauto.
    + right. right. right. eauto.
Qed.

Lemma registry_inv_resume (w : World) (task : nat) :
  registry_inv w -> registry_inv (resume w task).
Proof.
  intros Hinv.
  destruct (resume_cases w task)
    as [-> | [(k & sk & _ & _ & _ & ->) | [(p & v & _ & _ & ->) | (p & e & _ & _ & ->)]]].
  - exact Hinv.
  - unfold begin_login, call.
    pose proof (registry_inv_send w Call "auth/login"
                  (Some (login_payload (opts (client w)))) Hinv) as Hs.
    revert Hs. apply registry_inv_same. same_registry.
  - revert Hinv. apply registry_inv_same. same_registry.
  - revert Hinv. apply registry_inv_same. same_registry.
Qed.

Lemma send_client (w : World) (ty : PacketType) (path_ : string) (data : option json) :
  let c := client (fst (send w ty path_ data)) in
  opts c = opts (client w) /\ socket c = socket (client w)
  /\ reconnectTries c = reconnectTries (client w)
  /\ destroyed c = destroyed (client w).
Proof.
  unfold send, write, reject. simpl.
  destruct (socket (client w)) eqn:E; simpl; rewrite ?settle_promise_client;
    simpl; rewrite ?E; repeat split; reflexivity.
Qed.

Lemma send_world (w : World) (ty : PacketType) (path_ : string) (data : option json) :
  let w1 := fst (send w ty path_ data) in
  emitted w1 = emitted w /\ timers w1 = timers w /\ tasks w1 = tasks w
  /\ length (sockets w1) = length (sockets w).
Proof.
  unfold send, write, reject. simpl.
  destruct (socket (client w)); simpl.
  - repeat split; auto. apply length_alter.
  - rewrite settle_promise_emitted, settle_promise_timers, settle_promise_tasks,
      settle_promise_sockets. simpl. repeat split; reflexivity.
Qed.

Lemma send_promises (w : World) (ty : PacketType) (path_ : string) (data : option json) :
  exists st, promises (fst (send w ty path_ data)) = promises w ++ [st]
             /\ forall v, st <> Fulfilled v.
Proof.
  unfold send, write, reject. simpl.
  destruct (socket (client w)); simpl.
  - exists Pending. split; [reflexivity|discriminate].
  - unfold settle_promise. simpl.
    rewrite list_lookup_middle by reflexivity. simpl.
    exists (Rejected (TypeError "Cannot read properties of undefined (reading 'send')")).
    split; [|discriminate].
    replace (length (promises w)) with (length (promises w) + 0)%nat by lia.
    by rewrite insert_app_r.
Qed.

Lemma naming_inv_sublist (w w' : World) :
  id (client w') = id (client w) ->
  callbacks (client w') = callbacks (client w) ->
  length (promises w') = length (promises w) ->
  handlers (client w') `sublist_of` handlers (client w) ->
  naming_inv w -> naming_inv w'.
Proof.
  intros Hid Hcb Hlen Hsub (Hn & Hok). rewrite Forall_forall in Hok. split.
  - by rewrite Hlen, Hcb.
  - apply Forall_forall. intros h Hh p Hp.
    destruct (Hok h (elem_of_sublist _ _ _ Hh Hsub) p Hp) as (Hname & Hty).
    split; [|exact Hty]. unfold pending_id in *. by rewrite Hid.
Qed.

Lemma naming_inv_send (w : World) (ty : PacketType) (path_ : string)
    (data : option json) :
  naming_inv w -> naming_inv (fst (send w ty path_ data)).
Proof.
  intros (Hn & Hok).
  destruct (send_shape w ty path_ data) as (_ & Hhs & Hcb & Hid & _).
  destruct (send_promises w ty path_ data) as (st & Hp & _).
  unfold naming_inv. rewrite Hhs, Hcb, Hp, length_app. simpl. split; [lia|].
  apply Forall_app. split.
  - eapply Forall_impl; [exact Hok|]. simpl. intros h Hh p Hp'.
    destruct (Hh p Hp') as (Hname & Hty). split; [|exact Hty].
    unfold pending_id in *. by rewrite Hid.
  - apply Forall_singleton. simpl. intros p [= <-]. split; [|reflexivity].
    unfold pending_id. by rewrite Hid, Hn.
Qed.

Lemma naming_inv_resume (w : World) (task : nat) :
  naming_inv w -> naming_inv (resume w task).
Proof.
  intros Hinv.
  destruct (resume_cases w task)
    as [-> | [(k & sk & _ & _ & _ & ->) | [(p & v & _ & _ & ->) | (p & e & _ & _ & ->)]]].
  - exact Hinv.
  - unfold begin_login, call.
    exact (naming_inv_send w Call "auth/login"
             (Some (login_payload (opts (client w)))) Hinv).
  - exact Hinv.
  - exact Hinv.
Qed.

Lemma send_frame (w : World) (ty : PacketType) (path_ : string)
    (data : option json) (k : nat) (sk : WebSocket) :
  socket (client w) = Some k -> sockets w !! k = Some sk ->
  sockets (fst (send w ty path_ data)) !! k
  = Some (push_frame
            {| s := head (split_slash path_);
               n := Some (join "/" (tail (split_slash path_)));
               t := ty; d := data;
               i := pending_id w (callbacks (client w)) |} sk).
Proof.
  intros Hsock Hsk. unfold send, write. simpl. rewrite Hsock. simpl.
  rewrite list_lookup_alter, decide_True by reflexivity. by rewrite Hsk.
Qed.

(** ** Pending calls keep their entry *)

Lemma settle_promise_pending (w : World) (p q : nat) (st : Settlement) :
  promises (settle_promise w p st) !! q = Some Pending ->
  promises w !! q = Some Pending.
Proof.
  unfold settle_promise.
  destruct (promises w !! p) as [[| v | e]|] eqn:Hp; auto. simpl.
  destruct (decide (q = p)) as [->|Hne]; [done|].
  by rewrite list_lookup_insert_ne.
Qed.

Lemma invoke_pending (w : World) (h : Handler) (packet : json) (q : nat) :
  promises (fst (invoke w h packet)) !! q = Some Pending ->
  promises w !! q = Some Pending.
Proof.
  unfold invoke, settle, resolve, reject.
  repeat case_match; simpl; eauto using settle_promise_pending.
Qed.

Lemma invoke_settled (w : World) (h : Handler) (packet : json) (p : nat) :
  handler h = Settle p -> snd (invoke w h packet) = Normal ->
  promises (fst (invoke w h packet)) !! p <> Some Pending.
Proof.
  intros Hh. unfold invoke. rewrite Hh. unfold settle, resolve, reject.
  repeat case_match; simpl; try discriminate; intros _;
    by apply settle_promise_settled.
Qed.

Lemma elem_of_delete_other (hs : list Handler) (k : nat) (h h' : Handler) :
  hs !! k = Some h -> h' ∈ hs -> h' <> h -> h' ∈ delete k hs.
Proof.
  intros Hk Hin Hne. apply list_elem_of_lookup in Hin as [j Hj].
  apply list_elem_of_lookup.
  destruct (decide (j < k)%nat) as [Hlt|Hge].
  - exists j. by rewrite list_lookup_delete_lt.
  - assert (j <> k) by congruence.
    exists (pred j). rewrite list_lookup_delete_ge by lia.
    by replace (S (pred j)) with j by lia.
Qed.

Lemma pending_inv_handle (w : World) (packet : json) :
  wf_registry w -> pending_inv w -> pending_inv (fst (handle w packet)).
Proof.
  intros [Hnd _] Hinv.
  destruct (handle_cases w packet)
    as [[msg ->]|(h0 & index & -> & Hindex & Hin)]; [exact Hinv|].
  unfold dispatch. destruct h0 as [h|]; [|rewrite emit_fst; exact Hinv].
  pose proof (invoke_client w h packet) as Hc.
  pose proof (invoke_pending w h packet) as Hpend.
  pose proof (invoke_settled w h packet) as Hsettled.
  destruct (invoke w h packet) as [w1 [|e]]; simpl in *;
    [|intros q Hq; rewrite Hc; auto].
  destruct (Z.gtb_spec index (-1)) as [Hgt|Hle]; simpl;
    [|intros q Hq; rewrite Hc; auto].
  intros q Hq. rewrite Hc.
  destruct (Hinv q (Hpend q Hq)) as (h' & Hh' & Hs').
  exists h'. split; [|exact Hs'].
  destruct Hindex as [-> | ->]; [lia|].
  specialize (Hin h eq_refl). apply list_elem_of_lookup in Hin as [k Hk].
  unfold indexOf. rewrite (index_from_lookup _ k h 0 Hnd Hk).
  replace (0 + Z.of_nat k) with (Z.of_nat k) by lia. rewrite splice1_index.
  apply (elem_of_delete_other _ k h); auto.
  intros ->. by apply (Hsettled q).
Qed.

Lemma pending_inv_send (w : World) (ty : PacketType) (path_ : string)
    (data : option json) :
  pending_inv w -> pending_inv (fst (send w ty path_ data)).
Proof.
  intros Hinv q.
  destruct (send_shape w ty path_ data) as (_ & -> & _).
  destruct (send_promises w ty path_ data) as (st & -> & _).
  intros [Hq|[Hlen Hq]]%lookup_app_Some.
  - destruct (Hinv q Hq) as (h & Hh & Hs). exists h. split; [|exact Hs].
    apply elem_of_app. by left.
  - eexists. split; [apply elem_of_app; right; by apply list_elem_of_singleton|].
    simpl. f_equal. apply lookup_lt_Some in Hq. simpl in Hq. lia.
Qed.

Lemma pending_inv_resume (w : World) (task : nat) :
  pending_inv w -> pending_inv (resume w task).
Proof.
  intros Hinv.
  destruct (resume_cases w task)
    as [-> | [(k & sk & _ & _ & _ & ->) | [(p & v & _ & _ & ->) | (p & e & _ & _ & ->)]]].
  - exact Hinv.
  - unfold begin_login, call.
    exact (pending_inv_send w Call "auth/login"
             (Some (login_payload (opts (client w)))) Hinv).
  - exact Hinv.
  - exact Hinv.
Qed.

Section Invariant.

Variable JSON_parse : string -> option json.

Lemma fire_silent (w : World) (ev : Event) :
  silent ev = true ->
  handlers (client (fire JSON_parse w ev)) = handlers (client w)
  /\ promises (fire JSON_parse w ev) = promises w
  /\ callbacks (client (fire JSON_parse w ev)) = callbacks (client w)
  /\ id (client (fire JSON_parse w ev)) = id (client w)
  /\ next_ref (fire JSON_parse w ev) = next_ref w.
Proof.
  destruct ev; simpl; try discriminate; intros _.
  - unfold connect, open_socket. by case_match.
  - unfold destroy. by case_match.
  - unfold on_socket. by case_match.
  - unfold on_socket, on_error. rewrite emit_fst. by case_match.
  - unfold on_socket. rewrite on_close_eq. simpl. by repeat case_match.
  - unfold timer_fire, connect, open_socket. by repeat case_match.
  - unfold token_settled. by repeat case_match.
  - done.
Qed.

Lemma registry_inv_fire (w : World) (ev : Event) :
  registry_inv w -> registry_inv (fire JSON_parse w ev).
Proof.
  intros Hinv.
  destruct (silent ev) eqn:Hs.
  { destruct (fire_silent w ev Hs) as (? & _ & ? & ? & ?).
    revert Hinv. apply registry_inv_same. by repeat split. }
  destruct ev; try discriminate; simpl.
  - by apply registry_inv_send.
  - by apply registry_inv_push_user.
  - unfold on_socket. destruct (sockets w !! k); auto.
    unfold on_message. destruct (truthy _); auto.
    by apply registry_inv_handle.
  - by apply registry_inv_resume.
Qed.

Lemma naming_inv_fire (w : World) (ev : Event) :
  naming_inv w -> naming_inv (fire JSON_parse w ev).
Proof.
  intros Hinv.
  destruct (silent ev) eqn:Hs.
  { destruct (fire_silent w ev Hs) as (Hh & Hp & Hc & Hi & _).
    revert Hinv. apply naming_inv_sublist; auto; [by rewrite Hp|by rewrite Hh]. }
  destruct ev; try discriminate; simpl.
  - by apply naming_inv_send.
  - destruct Hinv as (Hn & Hok). split; [exact Hn|]. simpl.
    apply Forall_app. split; [exact Hok|].
    apply Forall_singleton. intros p. discriminate.
  - unfold on_socket. destruct (sockets w !! k); auto.
    unfold on_message. destruct (truthy _); auto.
    destruct (handle_registry w (parseJSON JSON_parse data JNull)) as (? & ? & _ & ?).
    eapply naming_inv_sublist; eauto using handle_promises_length.
  - by apply naming_inv_resume.
Qed.

Lemma pending_inv_fire (w : World) (ev : Event) :
  wf_registry w -> pending_inv w -> pending_inv (fire JSON_parse w ev).
Proof.
  intros Hwf Hinv.
  destruct (silent ev) eqn:Hs.
  { destruct (fire_silent w ev Hs) as (Hh & Hp & _).
    intros q. rewrite Hh, Hp. apply Hinv. }
  destruct ev; try discriminate; simpl.
  - by apply pending_inv_send.
  - intros q Hq. destruct (Hinv q Hq) as (h & Hh & Hs').
    exists h. split; [|exact Hs']. simpl. apply elem_of_app. by left.
  - unfold on_socket. destruct (sockets w !! k); auto.
    unfold on_message. destruct (truthy _); auto.
    by apply pending_inv_handle.
  - by apply pending_inv_resume.
Qed.

Lemma registry_inv_new (uuid : string) (o : Given) :
  registry_inv (new_client uuid o).
Proof. repeat split; simpl; constructor. Qed.

Lemma reachable_registry_inv (w : World) :
  reachable JSON_parse w -> registry_inv w.
Proof.
  induction 1; [apply registry_inv_new | by apply registry_inv_fire].
Qed.

Lemma reachable_naming_inv (w : World) :
  reachable JSON_parse w -> naming_inv w.
Proof.
  induction 1; [|by apply naming_inv_fire].
  split; [reflexivity|constructor].
Qed.

Lemma reachable_pending_inv (w : World) :
  reachable JSON_parse w -> pending_inv w.
Proof.
  induction 1 as [|w ev Hw IH]; [intros q Hq; discriminate|].
  apply pending_inv_fire; [|exact IH].
  apply (reachable_registry_inv w Hw).
Qed.

Lemma reachable_run (w : World) (evs : list Event) :
  reachable JSON_parse w -> reachable JSON_parse (run JSON_parse w evs).
Proof.
  revert w. induction evs as [|ev evs IH]; intros w Hw; simpl; [exact Hw|].
  apply IH. by constructor.
Qed.

Lemma reachable_send (w : World) (ty : PacketType) (path_ : string)
    (data : option json) :
  reachable JSON_parse w -> reachable JSON_parse (fst (send w ty path_ data)).
Proof. intros H. exact (reach_fire JSON_parse w (DoSend ty path_ data) H). Qed.


End Invariant.

Lemma resume_callbacks (w : World) (task : nat) :
  (callbacks (client w) <= callbacks (client (resume w task)))%N
  /\ id (client (resume w task)) = id (client w)
  /\ opt_name (opts (client (resume w task))) = opt_name (opts (client w)).
Proof.
  destruct (resume_cases w task)
    as [-> | [(k & sk & _ & _ & _ & ->) | [(p & v & _ & _ & ->) | (p & e & _ & _ & ->)]]];
    simpl; try (split; [lia|done]).
  unfold begin_login, call. simpl.
  destruct (send_shape w Call "auth/login"
              (Some (login_payload (opts (client w))))) as (_ & _ & -> & -> & _).
  destruct (send_client w Call "auth/login"
              (Some (login_payload (opts (client w))))) as (-> & _).
  split; [lia|done].
Qed.

Section CallRegistry.

Variable JSON_parse : string -> option json.

Lemma fire_name (w : World) (ev : Event) :
  opt_name (opts (client (fire JSON_parse w ev))) = opt_name (opts (client w))
  /\ id (client (fire JSON_parse w ev)) = id (client w).
Proof.
  destruct ev; simpl.
  - unfold connect, open_socket. by case_match.
  - unfold destroy. by case_match.
  - destruct (send_client w ty path_ data) as (-> & _).
    by destruct (send_shape w ty path_ data) as (_ & _ & _ & -> & _).
  - done.
  - unfold on_socket. by case_match.
  - unfold on_socket. case_match; [|done].
    unfold on_message. case_match; [|done]. by rewrite handle_client.
  - unfold on_socket, on_error. rewrite emit_fst. by case_match.
  - unfold on_socket. rewrite on_close_eq. simpl. by repeat case_match.
  - unfold timer_fire, connect, open_socket. by repeat case_match.
  - unfold token_settled. by repeat case_match.
  - by destruct (resume_callbacks w task) as (_ & -> & ->).
  - done.
Qed.

Lemma pending_id_fire (w : World) (ev : Event) (k : N) :
  pending_id (fire JSON_parse w ev) k = pending_id w k.
Proof.
  unfold pending_id. by destruct (fire_name w ev) as [_ ->].
Qed.

Lemma pending_id_run (w : World) (evs : list Event) (k : N) :
  pending_id (run JSON_parse w evs) k = pending_id w k.
Proof.
  revert w. induction evs as [|ev evs IH]; intros w; simpl; [done|].
  by rewrite IH, pending_id_fire.
Qed.

Lemma fire_callbacks_mono (w : World) (ev : Event) :
  (callbacks (client w) <= callbacks (client (fire JSON_parse w ev)))%N.
Proof.
  destruct (silent ev) eqn:Hs.
  { destruct (fire_silent JSON_parse w ev Hs) as (_ & _ & -> & _). lia. }
  destruct ev; try discriminate; simpl.
  - destruct (send_shape w ty path_ data) as (_ & _ & -> & _). lia.
  - lia.
  - unfold on_socket. destruct (sockets w !! k); [|lia].
    unfold on_message. destruct (truthy _); [|simpl; lia].
    destruct (handle_registry w (parseJSON JSON_parse data JNull)) as (_ & -> & _). lia.
  - apply resume_callbacks.
Qed.

(** The reply to a pending call finds the entry of that call. *)
Lemma pending_entry (w : World) (p : nat) :
  reachable JSON_parse w ->
  promises w !! p = Some Pending ->
  unclaimed w (pending_id w (N.of_nat p)) ->
  exists h k, handlers (client w) !! k = Some h /\ handler h = Settle p
    /\ findHandler (handlers (client w))
         (Some (JStr (pending_id w (N.of_nat p)))) (Some (JStr "callback"))
       = Some h.
Proof.
  intros Hreach Hp Hfree.
  destruct (reachable_registry_inv JSON_parse w Hreach) as (_ & Hids & _).
  destruct (reachable_naming_inv JSON_parse w Hreach) as (_ & Hnaming).
  rewrite Forall_forall in Hnaming.
  destruct (reachable_pending_inv JSON_parse w Hreach p Hp) as (h & Hin & Hs).
  destruct (Hnaming h Hin p Hs) as (Hname & Hty).
  pose proof Hin as Hin'. apply list_elem_of_lookup in Hin' as [k Hk].
  exists h, k. split; [exact Hk|]. split; [exact Hs|].
  unfold findHandler. apply (find_unique _ _ k); auto.
  - apply (matches_tag _ Callback). by rewrite Hname.
  - intros j h' Hj [[= Hn'] Hty']%(matches_tag _ Callback).
    destruct (Hfree h') as [q Hq]; auto.
    + apply list_elem_of_lookup; eauto.
    + eapply (pending_ids_of_index _ j k h' h); eauto. congruence.
Qed.


Lemma reply_reaches_call (w : World) (ty : PacketType) (path_ : string)
    (data : option json) (evs : list Event) (packet : json) :
  reachable JSON_parse w ->
  let w1 := fst (send w ty path_ data) in
  let p := snd (send w ty path_ data) in
  let X := pending_id w (callbacks (client w)) in
  let w2 := run JSON_parse w1 evs in
  promises w2 !! p = Some Pending ->
  unclaimed w2 X ->
  is_callback (get_prop packet "t") = true ->
  String_ (get_prop packet "i") = Some X ->
  exists h k,
    handlers (client w2) !! k = Some h /\ handler h = Settle p
    /\ callback_lookup w2 packet = Some h
    /\ handle w2 packet
       = match settle w2 p packet with
         | (w3, Throw e) => (w3, Throw e)
         | (w3, Normal) =>
             (with_client w3
                (set_handlers (client w3) (delete k (handlers (client w3)))),
              Normal)
         end.
Proof.
  intros Hreach w1 p X w2 Hpend Hfree Hcb Hi.
  assert (reachable JSON_parse w2) as Hreach2
    by (apply reachable_run; by apply reachable_send).
  destruct (send_shape w ty path_ data) as (Hp & _ & _ & Hid & _).
  fold p in Hp. fold w1 in Hid.
  assert (X = pending_id w2 (N.of_nat p)) as HX.
  { unfold w2. rewrite pending_id_run. unfold X, pending_id. rewrite Hid, Hp.
    by destruct (reachable_naming_inv JSON_parse w Hreach) as [-> _]. }
  rewrite HX in Hfree.
  destruct (pending_entry w2 p Hreach2 Hpend Hfree) as (h & k & Hk & Hs & Hfind).
  assert (callback_lookup w2 packet = Some h) as Hlook.
  { unfold callback_lookup. by rewrite Hi, HX. }
  exists h, k. split; [exact Hk|]. split; [exact Hs|]. split; [exact Hlook|].
  destruct (reachable_registry_inv JSON_parse w2 Hreach2) as ((Hnd & _) & _).
  rewrite (handle_callback w2 packet h k Hcb Hlook Hnd Hk).
  unfold invoke. by rewrite Hs.
Qed.

(** C3, as the code has it. In every world a session can reach: the
    correlation ids awaiting a reply are pairwise distinct; [send]
    allocates the session id followed by the value of the counter, an id
    that none of the pending calls bears, registers under it the entry that
    settles the promise it returns, puts it in the envelope it writes, and
    increments the counter, which no event ever decreases. Whatever happens
    next, as long as that call is pending and the application has
    registered no callback handler of its own under that id, a callback
    envelope carrying the id, with a payload on which the handler returns,
    is dispatched to the entry of that call: that entry alone leaves the
    registry, the promise of that call is settled, and every other promise
    is left as it was. *)
Theorem correlation_ids_unique_and_exact (w : World) :
  reachable JSON_parse w ->
  NoDup (pending_ids w)
  /\ (forall ty path_ data,
        let w1 := fst (send w ty path_ data) in
        let p := snd (send w ty path_ data) in
        let X := pending_id w (callbacks (client w)) in
        (X ∉ pending_ids w)
        /\ pending_ids w1 = pending_ids w ++ [X]
        /\ callbacks (client w1) = (callbacks (client w) + 1)%N
        /\ handlers (client w1)
           = handlers (client w)
             ++ [{| ref := next_ref w; name := X; type := Callback;
                    handler := Settle p |}]
        /\ (forall k sk, socket (client w) = Some k -> sockets w !! k = Some sk ->
              exists frame, sockets w1 !! k = Some (push_frame frame sk)
                            /\ i frame = X /\ t frame = ty)
        /\ (forall evs packet payload,
              let w2 := run JSON_parse w1 evs in
              let w3 := fst (handle w2 packet) in
              promises w2 !! p = Some Pending ->
              unclaimed w2 X ->
              is_callback (get_prop packet "t") = true ->
              String_ (get_prop packet "i") = Some X ->
              get_prop packet "d" = Some payload ->
              settles payload ->
              snd (handle w2 packet) = Normal
              /\ promises w3 !! p <> Some Pending
              /\ (forall q, q <> p -> promises w3 !! q = promises w2 !! q)
              /\ (exists k h, handlers (client w2) !! k = Some h
                    /\ handler h = Settle p
                    /\ handlers (client w3) = delete k (handlers (client w2)))))
  /\ (forall ev, (callbacks (client w) <= callbacks (client (fire JSON_parse w ev)))%N).
Proof.
  intros Hreach.
  pose proof (reachable_registry_inv JSON_parse w Hreach) as Hinv.
  destruct Hinv as ((Hnd & Hlt) & Hids & Hok).
  rewrite Forall_forall in Hok.
  split; [exact Hids|]. split; [|apply fire_callbacks_mono].
  intros ty path_ data w1 p X.
  destruct (send_shape w ty path_ data) as (Hp & Hhs & Hcb & _).
  fold w1 in Hhs, Hcb. fold p in Hp.
  split; [|split; [|split; [|split; [|split]]]].
  - intros Hx. apply pending_ids_of_elem in Hx as (h & q & Hin & Hq & Hn).
    destruct (Hok h Hin q Hq) as (_ & k & Hk & Hnk).
    unfold X in Hn. rewrite Hnk in Hn. apply pending_id_inj in Hn. lia.
  - unfold pending_ids. rewrite Hhs, pending_ids_of_app. reflexivity.
  - exact Hcb.
  - by rewrite Hhs, Hp.
  - intros k sk Hsock Hsk. subst w1. unfold send, write. simpl.
    rewrite Hsock. simpl. eexists. split.
    + rewrite list_lookup_alter, decide_True by reflexivity.
      rewrite Hsk. reflexivity.
    + split; reflexivity.
  - intros evs packet payload w2 w3 Hpend Hfree Hcbk Hi Hd Hsettles.
    destruct (reply_reaches_call w ty path_ data evs packet Hreach Hpend Hfree Hcbk Hi)
      as (h & k & Hk & Hs & _ & E).
    fold w1 w2 p in E. subst w3. rewrite E.
    destruct (settle_returns w2 p packet payload Hd Hsettles) as (st & Hst & ->).
    simpl. split; [reflexivity|]. split; [by apply settle_promise_settled|].
    split; [intros q Hq; by apply settle_promise_other|].
    exists k, h. by rewrite settle_promise_client.
Qed.

(** C1, as the code has it. Take a call made by [send] ([call] or [watch])
    in a world a session can reach, and what [send] returned: the promise
    [p], the correlation id [X] being in the envelope written. After any
    further events, if the call is still pending and the application has
    registered no callback handler of its own under [X], a callback envelope
    with correlation id [X] and a payload [d], neither absent nor [null],
    settles it: without [status], or with [status] the number 200, the
    promise is fulfilled with the payload [d] itself, whole; with another
    [status] that converts to a string it is rejected with an error whose
    message is [Response code: ] followed by that string, which is the
    status as JavaScript prints it when the value [prints_exactly]; and
    when the status does not convert, the handler throws a [TypeError] and
    the world, the pending call included, stays as it was. No other promise
    changes. *)
Theorem callback_settles_pending_call (w : World) (ty : PacketType)
    (path_ : string) (data : option json) (evs : list Event)
    (packet payload : json) :
  reachable JSON_parse w ->
  let w1 := fst (send w ty path_ data) in
  let p := snd (send w ty path_ data) in
  let X := pending_id w (callbacks (client w)) in
  let w2 := run JSON_parse w1 evs in
  let w3 := fst (handle w2 packet) in
  promises w2 !! p = Some Pending ->
  unclaimed w2 X ->
  is_callback (get_prop packet "t") = true ->
  String_ (get_prop packet "i") = Some X ->
  get_prop packet "d" = Some payload ->
  payload <> JNull ->
  (forall k sk, socket (client w) = Some k -> sockets w !! k = Some sk ->
     exists frame, last_sent w1 k = Some frame
                   /\ i frame = X /\ t frame = ty /\ d frame = data)
  /\ (get_prop payload "status" = None
      \/ get_prop payload "status" = Some (JNum 200) ->
      snd (handle w2 packet) = Normal
      /\ promises w3 !! p = Some (Fulfilled payload))
  /\ (forall status text,
        get_prop payload "status" = Some status -> status <> JNum 200 ->
        to_string status = Some text ->
        snd (handle w2 packet) = Normal
        /\ exists msg,
             promises w3 !! p = Some (Rejected (Error ("Response code: " +:+ msg)))
             /\ (prints_exactly status = true -> msg = text))
  /\ (forall status,
        get_prop payload "status" = Some status -> to_string status = None ->
        exists msg, handle w2 packet = (w2, Throw (TypeError msg)))
  /\ (forall q, q <> p -> promises w3 !! q = promises w2 !! q).
Proof.
  intros Hreach w1 p X w2 w3 Hpend Hfree Hcb Hi Hd Hnn.
  destruct (reply_reaches_call w ty path_ data evs packet Hreach Hpend Hfree Hcb Hi)
    as (h & k & Hk & Hs & _ & E).
  fold w1 w2 p in E. subst w3. rewrite E.
  rewrite (settle_with_payload w2 p packet payload Hd Hnn).
  split; [|split; [|split; [|split]]].
  - intros k0 sk Hsock Hsk. unfold last_sent, w1.
    rewrite (send_frame w ty path_ data k0 sk Hsock Hsk). simpl.
    rewrite last_snoc. eexists. split; [reflexivity|]. by repeat split.
  - intros [-> | ->]; simpl; (split; [reflexivity|]);
      by apply settle_promise_lookup.
  - intros status text -> Hne ->.
    destruct (strict_eq_num status 200) eqn:E200.
    { apply strict_eq_num_spec in E200. contradiction. }
    simpl. split; [reflexivity|]. exists text.
    split; [by apply settle_promise_lookup|done].
  - intros status -> Hconv. rewrite (to_string_not_200 status Hconv), Hconv. eauto.
  - intros q Hq. destruct (get_prop payload "status") as [status|]; simpl.
    + destruct (strict_eq_num status 200); simpl;
        [by apply settle_promise_other|].
      destruct (to_string status); simpl; [by apply settle_promise_other|done].
    + by apply settle_promise_other.
Qed.

End CallRegistry.

Lemma demo_open_reachable : reachable demo_parse demo_open.
Proof. unfold demo_open. apply reachable_run. constructor. Qed.

Lemma demo_pending_reachable : reachable demo_parse demo_pending.
Proof. unfold demo_pending, call. apply reachable_send. exact demo_open_reachable. Qed.

Lemma demo_unclaimed (w : World) (X : string) :
  handlers (client w) = [demo_entry] -> unclaimed w X.
Proof.
  intros E h Hh _ _. rewrite E in Hh.
  apply list_elem_of_singleton in Hh. subst h. by exists 1%nat.
Qed.

Lemma correlation_ids_unique_and_exact_demo :
  NoDup (pending_ids demo_pending)
  /\ pending_ids (fst (send demo_pending Watch "feed/prices" None)) = ["U-1"; "U-2"]
  /\ (let w2 := run demo_parse
                  (fst (send demo_open Call "math/add" None)) [SockClose 0 1006] in
      snd (handle w2 (demo_callback "U-1" (Some demo_add_ok))) = Normal
      /\ promises (fst (handle w2 (demo_callback "U-1" (Some demo_add_ok)))) !! 1%nat
         <> Some Pending).
Proof.
  destruct (correlation_ids_unique_and_exact demo_parse demo_pending
              demo_pending_reachable) as (Hnd & Hsend & _).
  split; [exact Hnd|]. split.
  - destruct (Hsend Watch "feed/prices" None) as (_ & -> & _). reflexivity.
  - destruct (correlation_ids_unique_and_exact demo_parse demo_open
                demo_open_reachable) as (_ & Hopen & _).
    destruct (Hopen Call "math/add" None) as (_ & _ & _ & _ & _ & Hexact).
    intros w2.
    destruct (Hexact [SockClose 0 1006] (demo_callback "U-1" (Some demo_add_ok))
                demo_add_ok) as (Hret & Hset & _).
    + vm_compute. reflexivity.
    + apply demo_unclaimed. vm_compute. reflexivity.
    + reflexivity.
    + reflexivity.
    + reflexivity.
    + exact demo_add_ok_settles.
    + split; [exact Hret|exact Hset].
Defined.

(** C3 on the code: a callback envelope that carries the id of a pending
    call does not always resolve that call. When the application has
    registered a callback handler under the id the call then gets, the
    reply goes to that handler and the call stays pending; and a reply
    without payload makes the handler of the call throw, the call staying
    pending and its entry staying in the registry. *)
Lemma reply_may_miss_its_call :
  snd (call (registerHandler demo_open "U-1" Callback (fun _ => Normal))
         "math/add" (Some (JObj [("a", JNum 1); ("b", JNum 2)]))) = 1%nat
  /\ promises demo_claimed !! 1%nat = Some Pending
  /\ last_sent demo_claimed 0
     = Some {| s := Some "math"; n := Some "add"; t := Call;
               d := Some (JObj [("a", JNum 1); ("b", JNum 2)]); i := "U-1" |}
  /\ snd (handle demo_claimed (demo_callback "U-1" (Some demo_add_ok))) = Normal
  /\ promises (fst (handle demo_claimed (demo_callback "U-1" (Some demo_add_ok))))
       !! 1%nat = Some Pending
  /\ invoked (fst (handle demo_claimed (demo_callback "U-1" (Some demo_add_ok))))
     = [(1%nat, demo_callback "U-1" (Some demo_add_ok))]
  /\ promises demo_pending !! 1%nat = Some Pending
  /\ (exists e, snd (handle demo_pending (demo_callback "U-1" None)) = Throw e)
  /\ promises (fst (handle demo_pending (demo_callback "U-1" None))) !! 1%nat
     = Some Pending
  /\ handlers (client (fst (handle demo_pending (demo_callback "U-1" None))))
     = [demo_entry].
Proof. vm_compute. repeat split; eauto. Qed.

Lemma callback_settles_pending_call_demo :
  let w2 := run demo_parse
              (fst (send demo_open Call "math/add"
                      (Some (JObj [("a", JNum 1); ("b", JNum 2)]))))
              [SockClose 0 1006; TimerFire 0] in
  snd (handle w2 (demo_callback "U-1" (Some demo_add_ok))) = Normal
  /\ promises (fst (handle w2 (demo_callback "U-1" (Some demo_add_ok)))) !! 1%nat
     = Some (Fulfilled demo_add_ok).
Proof.
  intros w2.
  destruct (callback_settles_pending_call demo_parse demo_open Call "math/add"
              (Some (JObj [("a", JNum 1); ("b", JNum 2)]))
              [SockClose 0 1006; TimerFire 0]
              (demo_callback "U-1" (Some demo_add_ok)) demo_add_ok)
    as (_ & H200 & _).
  - exact demo_open_reachable.
  - vm_compute. reflexivity.
  - apply demo_unclaimed. vm_compute. reflexivity.
  - reflexivity.
  - reflexivity.
  - reflexivity.
  - discriminate.
  - apply H200. right. reflexivity.
Defined.

(** The scenarios of C1 on the code: the reply [{status:200, result:3}]
    fulfils the call with that whole payload, not with [{result:3}]; a
    status that is an object with a key [toString] neither fulfils nor
    rejects the call, the handler throws and the call stays pending; and
    when the application has registered a callback handler under the id of
    the call, the reply does not reach the call. *)
Lemma scenario_add_keeps_status :
  promises (run demo_parse demo_pending [SockMessage 0 "add-ok"]) !! 1%nat
  = Some (Fulfilled (JObj [("status", JNum 200); ("result", JNum 3)]))
  /\ promises (run demo_parse demo_pending [SockMessage 0 "add-ok"]) !! 1%nat
     <> Some (Fulfilled (JObj [("result", JNum 3)]))
  /\ demo_parse "add-odd"
     = Some (demo_callback "U-1"
               (Some (JObj [("status", JObj [("toString", JNum 1)])])))
  /\ (exists msg, snd (on_message demo_parse demo_pending "add-odd")
                  = Throw (TypeError msg))
  /\ promises (run demo_parse demo_pending [SockMessage 0 "add-odd"]) !! 1%nat
     = Some Pending
  /\ promises (run demo_parse demo_claimed [SockMessage 0 "add-500"]) !! 1%nat
     = Some Pending.
Proof.
  split; [vm_compute; reflexivity|]. split; [vm_compute; discriminate|].
  vm_compute. repeat split; eauto.
Qed.

(** ** Reconnection *)

Lemma closes_since_connect_snoc (l : list Emitted) (e : Emitted) :
  closes_since_connect (l ++ [e]) = count_close (closes_since_connect l) e.
Proof. unfold closes_since_connect. by rewrite fold_left_app. Qed.

Lemma closes_since_connect_nonneg (l : list Emitted) :
  0 <= closes_since_connect l.
Proof.
  induction l as [|e l IH] using rev_ind; [done|].
  rewrite closes_since_connect_snoc. destruct e; simpl; lia.
Qed.

Lemma connect_backoff (w : World) :
  backoff_conf (connect w) = backoff_conf w
  /\ reconnectTries (client (connect w)) = reconnectTries (client w)
  /\ emitted (connect w) = emitted w.
Proof. unfold connect, open_socket, backoff_conf. fields. Qed.

Lemma begin_login_fields (w : World) (task : nat) :
  let w1 := begin_login w task in
  opts (client w1) = opts (client w)
  /\ socket (client w1) = socket (client w)
  /\ reconnectTries (client w1) = reconnectTries (client w)
  /\ destroyed (client w1) = destroyed (client w)
  /\ emitted w1 = emitted w /\ timers w1 = timers w
  /\ tasks w1 = <[task := AwaitLogin (length (promises w))]> (tasks w)
  /\ length (sockets w1) = length (sockets w)
  /\ error_listeners w1 = error_listeners w.
Proof.
  unfold begin_login, call. simpl.
  destruct (send_client w Call "auth/login"
              (Some (login_payload (opts (client w))))) as (-> & -> & -> & ->).
  destruct (send_world w Call "auth/login"
              (Some (login_payload (opts (client w))))) as (-> & -> & -> & ->).
  repeat split; auto.
  unfold send, write, reject. simpl.
  destruct (socket (client w)); simpl; [done|].
  unfold settle_promise. by repeat case_match.
Qed.

Lemma resume_backoff (w : World) (task : nat) :
  backoff_conf (resume w task) = backoff_conf w
  /\ ((reconnectTries (client (resume w task)) = reconnectTries (client w)
       /\ emitted (resume w task) = emitted w)
      \/ (reconnectTries (client (resume w task)) = 0
          /\ emitted (resume w task) = emitted w ++ [EvConnect]
          /\ exists p v, tasks w !! task = Some (AwaitLogin p)
                         /\ promises w !! p = Some (Fulfilled v))).
Proof.
  unfold backoff_conf.
  destruct (resume_cases w task)
    as [-> | [(k & sk & _ & _ & _ & ->) | [(p & v & Ht & Hp & ->) | (p & e & _ & _ & ->)]]].
  - auto.
  - destruct (begin_login_fields w task) as (-> & _ & -> & _ & -> & _). auto.
  - simpl. split; [reflexivity|]. right. eauto 6.
  - simpl. auto.
Qed.

Section Backoff.

Variable JSON_parse : string -> option json.

Lemma fire_backoff_conf (w : World) (ev : Event) :
  backoff_conf (fire JSON_parse w ev) = backoff_conf w.
Proof.
  destruct ev; simpl.
  - apply connect_backoff.
  - unfold destroy, backoff_conf. fields.
  - unfold backoff_conf.
    destruct (send_client w ty path_ data) as (-> & _). reflexivity.
  - reflexivity.
  - unfold on_socket, on_open. fields.
  - unfold on_socket. destruct (sockets w !! k); [|reflexivity].
    unfold on_message. destruct (truthy _); [|reflexivity].
    unfold backoff_conf. by rewrite handle_client.
  - unfold on_socket, on_error. rewrite emit_fst. fields.
  - unfold on_socket. rewrite on_close_eq. unfold setTimeout, backoff_conf. fields.
  - unfold timer_fire. destruct (timers w !! k) as [tm|]; [|reflexivity].
    destruct (fired tm); [reflexivity|]. simpl.
    destruct (destroyed (client w)); [reflexivity|].
    match goal with |- context [connect ?x] =>
      destruct (connect_backoff x) as (-> & _) end.
    reflexivity.
  - unfold token_settled, open_socket, backoff_conf. fields.
  - apply resume_backoff.
  - reflexivity.
Qed.

Lemma run_backoff_conf (w : World) (evs : list Event) :
  backoff_conf (run JSON_parse w evs) = backoff_conf w.
Proof.
  revert w. induction evs as [|ev evs IH]; intros w; simpl; [reflexivity|].
  rewrite (IH (fire JSON_parse w ev)). apply fire_backoff_conf.
Qed.

(** With auto-reconnect on, the retry counter is the number of closures
    since the last ['connect'] event. *)
Lemma fire_counts_closures (w : World) (ev : Event) :
  autoReconnect (opts (client w)) = Some true ->
  reconnectTries (client w) = closes_since_connect (emitted w) ->
  reconnectTries (client (fire JSON_parse w ev))
  = closes_since_connect (emitted (fire JSON_parse w ev)).
Proof.
  intros Hauto Hinv. destruct ev; simpl.
  - destruct (connect_backoff w) as (_ & -> & ->). exact Hinv.
  - unfold destroy. destruct (socket (client w)); exact Hinv.
  - destruct (send_client w ty path_ data) as (_ & _ & -> & _).
    destruct (send_world w ty path_ data) as (-> & _). exact Hinv.
  - exact Hinv.
  - unfold on_socket. destruct (sockets w !! k); exact Hinv.
  - unfold on_socket. destruct (sockets w !! k); [|exact Hinv].
    unfold on_message. destruct (truthy _); [|exact Hinv].
    rewrite handle_client. simpl.
    destruct (handle_emitted w (parseJSON JSON_parse data JNull)) as [-> | ->];
      [exact Hinv|].
    by rewrite closes_since_connect_snoc.
  - unfold on_socket. destruct (sockets w !! k); [|exact Hinv].
    unfold on_error. rewrite emit_fst. simpl. by rewrite closes_since_connect_snoc.
  - unfold on_socket. destruct (sockets w !! k); [|exact Hinv].
    rewrite on_close_eq. simpl. rewrite Hauto. simpl.
    rewrite closes_since_connect_snoc. simpl. by rewrite Hinv.
  - unfold timer_fire. destruct (timers w !! k) as [tm|]; [|exact Hinv].
    destruct (fired tm); [exact Hinv|]. simpl.
    destruct (destroyed (client w)); [exact Hinv|].
    match goal with |- context [connect ?x] =>
      destruct (connect_backoff x) as (_ & -> & ->) end.
    exact Hinv.
  - unfold token_settled. destruct (tasks w !! task) as [[]|]; exact Hinv.
  - destruct (resume_backoff w task) as (_ & [[-> ->] | (-> & -> & _)]);
      [exact Hinv|].
    by rewrite closes_since_connect_snoc.
  - exact Hinv.
Qed.

Lemma run_counts_closures (w : World) (evs : list Event) :
  autoReconnect (opts (client w)) = Some true ->
  reconnectTries (client w) = closes_since_connect (emitted w) ->
  reconnectTries (client (run JSON_parse w evs))
  = closes_since_connect (emitted (run JSON_parse w evs)).
Proof.
  revert w. induction evs as [|ev evs IH]; intros w Hauto Hinv; simpl; [exact Hinv|].
  apply IH.
  - pose proof (fire_backoff_conf w ev) as Hc. unfold backoff_conf in Hc.
    injection Hc as -> _ _. exact Hauto.
  - by apply fire_counts_closures.
Qed.

End Backoff.

(** ** The current socket is one of the sockets created *)

Lemma send_socket_ok (w : World) (ty : PacketType) (path_ : string) (data : option json) :
  socket_ok w -> socket_ok (fst (send w ty path_ data)).
Proof.
  unfold socket_ok.
  destruct (send_client w ty path_ data) as (_ & -> & _).
  destruct (send_world w ty path_ data) as (_ & _ & _ & Hlen).
  destruct (socket (client w)); [by rewrite Hlen|].
  intros Hnil. apply length_zero_iff_nil. rewrite Hlen, Hnil. reflexivity.
Qed.

Lemma open_socket_ok (w : World) (task : nat) : socket_ok (open_socket w task).
Proof. unfold socket_ok, open_socket. simpl. rewrite length_app. simpl. lia. Qed.

Lemma connect_socket_ok (w : World) : socket_ok w -> socket_ok (connect w).
Proof.
  intros H. unfold connect. case_match; [apply open_socket_ok|exact H].
Qed.

Lemma alter_socket_ok (w : World) (f : WebSocket -> WebSocket) (k : nat) :
  socket_ok w -> socket_ok (set_sockets w (alter f k (sockets w))).
Proof.
  unfold socket_ok. simpl. destruct (socket (client w)).
  - by rewrite length_alter.
  - by intros ->.
Qed.

Lemma resume_socket_ok (w : World) (task : nat) :
  socket_ok w -> socket_ok (resume w task).
Proof.
  intros H.
  destruct (resume_cases w task)
    as [-> | [(k & sk & _ & _ & _ & ->) | [(p & v & _ & _ & ->) | (p & e & _ & _ & ->)]]];
    auto.
  unfold begin_login, call.
  exact (send_socket_ok w Call "auth/login"
           (Some (login_payload (opts (client w)))) H).
Qed.

Section SocketOk.

Variable JSON_parse : string -> option json.

Lemma fire_socket_ok (w : World) (ev : Event) :
  socket_ok w -> socket_ok (fire JSON_parse w ev).
Proof.
  intros H. destruct ev; simpl.
  - by apply connect_socket_ok.
  - unfold destroy. case_match; [|exact H]. simpl.
    by apply (alter_socket_ok w close_socket).
  - by apply send_socket_ok.
  - exact H.
  - unfold on_socket. case_match; [|exact H]. by apply alter_socket_ok.
  - unfold on_socket. case_match; [|exact H].
    unfold on_message. case_match; [|exact H].
    unfold socket_ok. by rewrite handle_client, handle_sockets.
  - unfold on_socket, on_error. rewrite emit_fst. by case_match.
  - unfold on_socket. rewrite on_close_eq. simpl. by repeat case_match.
  - unfold timer_fire. repeat case_match; auto.
    by apply connect_socket_ok.
  - unfold token_settled. repeat case_match; auto; apply open_socket_ok.
  - by apply resume_socket_ok.
  - exact H.
Qed.


Lemma reachable_socket_ok (w : World) :
  reachable JSON_parse w -> socket_ok w.
Proof. induction 1; [reflexivity|by apply fire_socket_ok]. Qed.

End SocketOk.

Lemma truthy_envelope (packet : json) :
  is_callback (get_prop packet "t") = true -> truthy (Some packet) = true.
Proof. destruct packet; simpl; try discriminate; auto. Qed.

Lemma settle_fulfils (w : World) (p : nat) (packet payload : json) :
  get_prop packet "d" = Some payload -> fulfils payload ->
  settle w p packet = (settle_promise w p (Fulfilled payload), Normal).
Proof.
  intros Hd [Hnn Hs]. rewrite (settle_with_payload w p packet payload Hd Hnn).
  by destruct Hs as [-> | ->].
Qed.

Section BackoffClaim.

Variable JSON_parse : string -> option json.

(** A login that succeeds: the socket awaited by a run of [connect] is
    open, the run goes on and sends the login call, the reply arrives and
    the run goes on again. *)
Lemma login_round (w : World) (task s k : nat) (sk : WebSocket) (data : string)
    (packet payload : json) :
  reachable JSON_parse w ->
  tasks w !! task = Some (AwaitOpen s) ->
  sockets w !! s = Some sk -> opened sk = true ->
  is_Some (sockets w !! k) ->
  unclaimed w (pending_id w (callbacks (client w))) ->
  JSON_parse data = Some packet ->
  is_callback (get_prop packet "t") = true ->
  String_ (get_prop packet "i") = Some (pending_id w (callbacks (client w))) ->
  get_prop packet "d" = Some payload ->
  fulfils payload ->
  let p := length (promises w) in
  let w1 := fire JSON_parse w (Resume task) in
  let w2 := fire JSON_parse w1 (SockMessage k data) in
  let w3 := fire JSON_parse w2 (Resume task) in
  tasks w1 !! task = Some (AwaitLogin p)
  /\ promises w1 !! p = Some Pending
  /\ promises w2 !! p = Some (Fulfilled payload)
  /\ reconnectTries (client w3) = 0
  /\ emitted w3 = emitted w ++ [EvConnect]
  /\ tasks w3 !! task = Some Finished
  /\ length (sockets w3) = length (sockets w)
  /\ emitted w1 = emitted w
  /\ emitted w2 = emitted w.
Proof.
  intros Hreach Ht Hs Ho Hk Hfree Hparse Hcb Hi Hd Hful p w1 w2 w3.
  set (X := pending_id w (callbacks (client w))) in *.
  assert (w1 = begin_login w task) as E1.
  { unfold w1. simpl. unfold resume. rewrite Ht, Hs, Ho. unfold begin_login, call.
    destruct (send_shape w Call "auth/login"
                (Some (login_payload (opts (client w))))) as (Hp & _).
    destruct (send w Call _ _) as [x p1]. simpl in *. by subst p1. }
  assert (reachable JSON_parse w1) as Hreach1 by by constructor.
  destruct (begin_login_fields w task)
    as (_ & _ & _ & _ & Hem & _ & Htasks & Hlen & _).
  rewrite <- E1 in Hem, Htasks, Hlen.
  assert (tasks w1 !! task = Some (AwaitLogin p)) as Ht1.
  { rewrite Htasks. apply list_lookup_insert_eq. by eapply lookup_lt_Some. }
  destruct (send_shape w Call "auth/login"
              (Some (login_payload (opts (client w))))) as (_ & Hhs & _).
  assert (handlers (client w1)
          = handlers (client w)
            ++ [{| ref := next_ref w; name := X; type := Callback;
                   handler := Settle p |}]) as Hhs1 by (by rewrite E1).
  assert (promises w1 !! p = Some Pending) as Hpend.
  { pose proof (reachable_socket_ok JSON_parse w Hreach) as Hok.
    unfold socket_ok in Hok.
    destruct (socket (client w)) as [k0|] eqn:Hk0;
      [|rewrite Hok in Hs; discriminate].
    rewrite E1. unfold begin_login, call, send, write. simpl. rewrite Hk0. simpl.
    by rewrite list_lookup_middle. }
  assert (pending_id w1 (N.of_nat p) = X) as HX.
  { unfold w1. rewrite pending_id_fire. unfold X, p.
    by destruct (reachable_naming_inv JSON_parse w Hreach) as [-> _]. }
  assert (unclaimed w1 (pending_id w1 (N.of_nat p))) as Hfree1.
  { rewrite HX. intros h Hh Hn Hty. rewrite Hhs1 in Hh.
    apply elem_of_app in Hh as [Hh|Hh]; [by apply Hfree|].
    apply list_elem_of_singleton in Hh. subst h. by exists p. }
  destruct (pending_entry JSON_parse w1 p Hreach1 Hpend Hfree1)
    as (h & j & Hj & Hsettle & Hfind).
  assert (callback_lookup w1 packet = Some h) as Hlook.
  { unfold callback_lookup. by rewrite Hi, <- HX. }
  destruct (reachable_registry_inv JSON_parse w1 Hreach1) as ((Hnd & _) & _).
  assert (w2 = with_client (settle_promise w1 p (Fulfilled payload))
                 (set_handlers (client w1) (delete j (handlers (client w1)))))
    as E2.
  { unfold w2. simpl. unfold on_socket.
    assert (is_Some (sockets w1 !! k)) as [sk1 ->].
    { apply lookup_lt_is_Some. rewrite Hlen. by apply lookup_lt_is_Some. }
    unfold on_message, parseJSON. rewrite Hparse, (truthy_envelope packet Hcb).
    rewrite (handle_callback w1 packet h j Hcb Hlook Hnd Hj).
    unfold invoke. rewrite Hsettle, (settle_fulfils w1 p packet payload Hd Hful).
    simpl. by rewrite settle_promise_client. }
  assert (promises w2 !! p = Some (Fulfilled payload)) as Hp2.
  { rewrite E2. simpl. by apply settle_promise_lookup. }
  assert (tasks w2 !! task = Some (AwaitLogin p)) as Ht2.
  { rewrite E2. simpl. by rewrite settle_promise_tasks. }
  split; [exact Ht1|]. split; [exact Hpend|]. split; [exact Hp2|].
  unfold w3. simpl. rewrite (resume_fulfilled w2 task p payload Ht2 Hp2). simpl.
  split; [reflexivity|]. split.
  { rewrite E2. simpl. by rewrite settle_promise_emitted, Hem. }
  split.
  { apply list_lookup_insert_eq. by eapply lookup_lt_Some. }
  split; [rewrite E2; simpl; by rewrite settle_promise_sockets|].
  split; [exact Hem|]. rewrite E2. simpl. by rewrite settle_promise_emitted.
Qed.

Lemma close_arms_timer (uuid : string) (o : Given) (evs : list Event)
    (k : nat) (code interval mult : Z) :
  let w := run JSON_parse (new_client uuid o) evs in
  backoff_conf (new_client uuid o) = (Some true, Some interval, Some mult) ->
  is_Some (sockets w !! k) ->
  let w' := fire JSON_parse w (SockClose k code) in
  let n := closes_since_connect (emitted w') in
  n = closes_since_connect (emitted w) + 1
  /\ 1 <= n
  /\ reconnectTries (client w') = n
  /\ timers w' = timers w ++ [{| delay := Some (n * interval * mult); fired := false |}]
  /\ timer_fire w' (length (timers w))
     = (if destroyed (client w') then spend w' (length (timers w))
        else connect (spend w' (length (timers w)))).
Proof.
  intros w Hconf [sk Hsk] w' n.
  assert (backoff_conf w = (Some true, Some interval, Some mult)) as Hw
    by (unfold w; by rewrite run_backoff_conf).
  unfold backoff_conf in Hw. injection Hw as Hauto Hint Hmult.
  assert (autoReconnect (opts (client (new_client uuid o))) = Some true) as Hauto0
    by (unfold backoff_conf in Hconf; congruence).
  pose proof (run_counts_closures JSON_parse (new_client uuid o) evs Hauto0 eq_refl)
    as Hcount.
  fold w in Hcount.
  assert (w' = setTimeout
                 (with_client (log_event w (EvClose code))
                    (set_reconnectTries (client w) (reconnectTries (client w) + 1)))
                 (Some ((reconnectTries (client w) + 1) * interval * mult))) as Hw'.
  { unfold w'. simpl. unfold on_socket. rewrite Hsk, on_close_eq. simpl.
    rewrite Hauto, Hint, Hmult. reflexivity. }
  assert (n = closes_since_connect (emitted w) + 1) as Hn.
  { unfold n. rewrite Hw'. simpl. by rewrite closes_since_connect_snoc. }
  split; [exact Hn|].
  split; [pose proof (closes_since_connect_nonneg (emitted w)); lia|].
  split; [rewrite Hw'; simpl; lia|].
  split; [rewrite Hw'; simpl; rewrite Hn, Hcount; reflexivity|].
  rewrite Hw'. unfold timer_fire, spend, setTimeout. simpl.
  rewrite list_lookup_middle by reflexivity. reflexivity.
Qed.

(** C4. Take any session created with auto-reconnect on and any history.
    When one of its sockets closes, the ['close'] listener sets the retry
    counter to [n], the number of closures since the last ['connect'] event
    (so [n] is 1 for the first closure after a successful login and grows by
    one with every further closure), and arms a timer of exactly
    [n * reconnectInterval * reconnectIntervalMultiplier]; when that timer
    runs out, [connect] is called unless the session was destroyed. The
    continuation of [connect] that finds the login promise fulfilled sets the
    counter back to 0 and emits ['connect']. And a login that succeeds does
    get there: when the socket a run of [connect] awaits is open, the run
    sends the login call, the reply to that call (the application having
    registered no callback handler under its id) fulfils it, and the run
    then sets the counter to 0 and emits ['connect'], so that the closure
    that follows arms a timer of [1 * reconnectInterval *
    reconnectIntervalMultiplier]. *)
Theorem reconnect_delay_linear (uuid : string) (o : Given) (evs : list Event)
    (k : nat) (code interval mult : Z) :
  let w := run JSON_parse (new_client uuid o) evs in
  backoff_conf (new_client uuid o) = (Some true, Some interval, Some mult) ->
  is_Some (sockets w !! k) ->
  let w' := fire JSON_parse w (SockClose k code) in
  let n := closes_since_connect (emitted w') in
  n = closes_since_connect (emitted w) + 1
  /\ 1 <= n
  /\ reconnectTries (client w') = n
  /\ timers w' = timers w ++ [{| delay := Some (n * interval * mult); fired := false |}]
  /\ timer_fire w' (length (timers w))
     = (if destroyed (client w') then spend w' (length (timers w))
        else connect (spend w' (length (timers w))))
  /\ (forall task p v,
        tasks w !! task = Some (AwaitLogin p) ->
        promises w !! p = Some (Fulfilled v) ->
        let w2 := fire JSON_parse w (Resume task) in
        reconnectTries (client w2) = 0
        /\ emitted w2 = emitted w ++ [EvConnect]
        /\ closes_since_connect (emitted w2) = 0)
  /\ (forall task s sk data packet payload,
        tasks w !! task = Some (AwaitOpen s) ->
        sockets w !! s = Some sk -> opened sk = true ->
        unclaimed w (pending_id w (callbacks (client w))) ->
        JSON_parse data = Some packet ->
        is_callback (get_prop packet "t") = true ->
        String_ (get_prop packet "i") = Some (pending_id w (callbacks (client w))) ->
        get_prop packet "d" = Some payload ->
        fulfils payload ->
        let w3 := run JSON_parse w [Resume task; SockMessage k data; Resume task] in
        tasks (fire JSON_parse w (Resume task)) !! task
        = Some (AwaitLogin (length (promises w)))
        /\ reconnectTries (client w3) = 0
        /\ emitted w3 = emitted w ++ [EvConnect]
        /\ timers (fire JSON_parse w3 (SockClose k code))
           = timers w3 ++ [{| delay := Some (1 * interval * mult); fired := false |}]).
Proof.
  intros w Hconf Hk w' n.
  destruct (close_arms_timer uuid o evs k code interval mult Hconf Hk)
    as (H1 & H2 & H3 & H4 & H5).
  fold w in H1, H2, H3, H4, H5. fold w' in H1, H2, H3, H4, H5. fold n in H1, H2, H3, H4.
  split; [exact H1|]. split; [exact H2|]. split; [exact H3|]. split; [exact H4|].
  split; [exact H5|]. split.
  - intros task p v Ht Hp w2. unfold w2. simpl.
    rewrite (resume_fulfilled w task p v Ht Hp). simpl. repeat split.
    by rewrite closes_since_connect_snoc.
  - intros task s sk data packet payload Ht Hs Ho Hfree Hparse Hcb Hi Hd Hful w3.
    assert (reachable JSON_parse w) as Hreach
      by (apply reachable_run; constructor).
    destruct (login_round w task s k sk data packet payload Hreach Ht Hs Ho Hk
                Hfree Hparse Hcb Hi Hd Hful)
      as (Ht1 & _ & _ & Htries & Hem & _ & Hlen & _).
    split; [exact Ht1|]. split; [exact Htries|]. split; [exact Hem|].
    assert (w3 = run JSON_parse (new_client uuid o)
                   (evs ++ [Resume task; SockMessage k data; Resume task])) as E3
      by (unfold w3, w, run; by rewrite fold_left_app).
    assert (length (sockets w3) = length (sockets w)) as Hlen3 by exact Hlen.
    assert (emitted w3 = emitted w ++ [EvConnect]) as Hem3 by exact Hem.
    assert (is_Some (sockets w3 !! k)) as Hk3.
    { apply lookup_lt_is_Some. rewrite Hlen3. by apply lookup_lt_is_Some. }
    rewrite E3 in Hk3.
    destruct (close_arms_timer uuid o
                (evs ++ [Resume task; SockMessage k data; Resume task])
                k code interval mult Hconf Hk3) as (Hn & _ & _ & Htm & _).
    rewrite <- E3 in Hn, Htm. rewrite Htm, Hn, Hem3, closes_since_connect_snoc.
    reflexivity.
Qed.

End BackoffClaim.

Lemma reconnect_delay_linear_demo :
  let w := run demo_parse (new_client "U" demo_options) [DoConnect; SockOpen 0] in
  let w' := fire demo_parse w (SockClose 0 1006) in
  let w3 := run demo_parse w [Resume 0; SockMessage 0 "login-ok"; Resume 0] in
  timers w'
  = timers w ++ [{| delay := Some (closes_since_connect (emitted w') * 2000 * 1);
                    fired := false |}]
  /\ reconnectTries (client w3) = 0
  /\ emitted w3 = emitted w ++ [EvConnect]
  /\ timers (fire demo_parse w3 (SockClose 0 1006))
     = timers w3 ++ [{| delay := Some (1 * 2000 * 1); fired := false |}].
Proof.
  intros w w' w3.
  destruct (reconnect_delay_linear demo_parse "U" demo_options
              [DoConnect; SockOpen 0] 0%nat 1006 2000 1)
    as (_ & _ & _ & Htm & _ & _ & Hround).
  - reflexivity.
  - vm_compute. eauto.
  - split; [exact Htm|].
    destruct (Hround 0%nat 0%nat
                {| sent := []; opened := true; closed := false |} "login-ok"
                (demo_callback "U-0" (Some (JObj [("status", JNum 200)])))
                (JObj [("status", JNum 200)])) as (_ & Htries & Hem & Hnext).
    + vm_compute. reflexivity.
    + vm_compute. reflexivity.
    + reflexivity.
    + intros h Hh. vm_compute in Hh. inversion Hh.
    + reflexivity.
    + reflexivity.
    + vm_compute. reflexivity.
    + reflexivity.
    + split; [discriminate|]. right. reflexivity.
    + split; [exact Htries|]. split; [exact Hem|exact Hnext].
Defined.

(** The scenario of the backoff: 2000 ms before the first attempt, 4000 ms
    before the second. *)
Lemma scenario_backoff_delays :
  delay <$> timers (run demo_parse demo_new (demo_dropped ++ [SockClose 1 1006]))
  = [Some 2000; Some 4000].
Proof. vm_compute. reflexivity. Qed.

(** ** The login handshake *)









Section HandshakeSteps.

Variable JSON_parse : string -> option json.


End HandshakeSteps.








Section HandshakeFacts.

Variable JSON_parse : string -> option json.





End HandshakeFacts.

Section HandshakeInvariant.

Variable JSON_parse : string -> option json.








End HandshakeInvariant.



(** ** destroy *)

Lemma resume_destroyed (w : World) (task : nat) :
  destroyed (client (resume w task)) = destroyed (client w)
  /\ length (tasks (resume w task)) = length (tasks w).
Proof.
  destruct (resume_cases w task)
    as [-> | [(k & sk & _ & _ & _ & ->) | [(p & v & _ & _ & ->) | (p & e & _ & _ & ->)]]].
  - done.
  - destruct (begin_login_fields w task) as (_ & _ & _ & -> & _ & _ & -> & _).
    by rewrite length_insert.
  - simpl. by rewrite length_insert.
  - simpl. by rewrite length_insert.
Qed.

Section Destroy.

Variable JSON_parse : string -> option json.

(** Nothing clears the flag, and once it is set only [connect()] called by
    the application starts a run of [connect]. *)
Lemma fire_destroyed (w : World) (ev : Event) :
  destroyed (client w) = true ->
  destroyed (client (fire JSON_parse w ev)) = true
  /\ (ev <> DoConnect ->
      length (tasks (fire JSON_parse w ev)) = length (tasks w)).
Proof.
  intros Hd. destruct ev; simpl.
  - split; [|done]. unfold connect, open_socket. by case_match.
  - unfold destroy. by case_match.
  - destruct (send_client w ty path_ data) as (_ & _ & _ & ->).
    by destruct (send_world w ty path_ data) as (_ & _ & -> & _).
  - done.
  - unfold on_socket. by case_match.
  - unfold on_socket. case_match; [|done].
    unfold on_message. case_match; [|done].
    by rewrite handle_client, handle_tasks.
  - unfold on_socket, on_error. rewrite emit_fst. by case_match.
  - unfold on_socket. rewrite on_close_eq. simpl. by repeat case_match.
  - unfold timer_fire. destruct (timers w !! k) as [tm|]; [|done].
    destruct (fired tm); [done|]. simpl. by rewrite Hd.
  - unfold token_settled, open_socket.
    destruct (tasks w !! task) as [[]|]; simpl; auto.
    by rewrite length_insert.
  - destruct (resume_destroyed w task) as [-> ->]. done.
  - done.
Qed.

Lemma run_destroyed (w : World) (evs : list Event) :
  destroyed (client w) = true -> DoConnect ∉ evs ->
  destroyed (client (run JSON_parse w evs)) = true
  /\ length (tasks (run JSON_parse w evs)) = length (tasks w).
Proof.
  revert w. induction evs as [|ev evs IH]; intros w Hd Hno; simpl; [done|].
  apply not_elem_of_cons in Hno as [Hne Hno].
  destruct (fire_destroyed w ev Hd) as [Hd' Hlen].
  destruct (IH (fire JSON_parse w ev) Hd' Hno) as [-> ->].
  split; [done|]. apply Hlen. congruence.
Qed.

(** C6, as the code has it. On a session that holds a transport, [destroy]
    returns normally, has called [close] on that transport and has set the
    destroyed flag. From then on, whatever happens short of the application
    calling [connect] itself, the flag stays set and no run of [connect] is
    started: a reconnect timer that runs out does nothing. *)
Theorem destroy_with_transport (w : World) (k : nat) (evs : list Event) :
  socket (client w) = Some k ->
  DoConnect ∉ evs ->
  let w' := fst (destroy w) in
  snd (destroy w) = Normal
  /\ destroyed (client w') = true
  /\ sockets w' = alter close_socket k (sockets w)
  /\ destroyed (client (run JSON_parse w' evs)) = true
  /\ length (tasks (run JSON_parse w' evs)) = length (tasks w)
  /\ (forall j, timer_fire (run JSON_parse w' evs) j
                = spend (run JSON_parse w' evs) j
                \/ timer_fire (run JSON_parse w' evs) j = run JSON_parse w' evs).
Proof.
  intros Hsock Hno w'.
  assert (destroy w
          = (with_client (set_sockets w (alter close_socket k (sockets w)))
               (set_destroyed (client w) true), Normal)) as E.
  { unfold destroy. by rewrite Hsock. }
  subst w'. rewrite E. simpl.
  split; [reflexivity|]. split; [reflexivity|]. split; [reflexivity|].
  match goal with |- context [run _ ?x evs] => set (w' := x) end.
  destruct (run_destroyed w' evs eq_refl Hno) as [Hd Hlen].
  split; [exact Hd|]. split; [exact Hlen|].
  intros j. unfold timer_fire, spend.
  destruct (timers _ !! j) as [tm|]; [|by right].
  destruct (fired tm); [by right|]. left. simpl. by rewrite Hd.
Qed.

End Destroy.

Lemma destroy_with_transport_demo :
  let evs := [SockClose 0 1000; TimerFire 0] in
  let w' := fst (destroy demo_open) in
  snd (destroy demo_open) = Normal
  /\ destroyed (client w') = true
  /\ sockets w' = alter close_socket 0%nat (sockets demo_open)
  /\ destroyed (client (run demo_parse w' evs)) = true
  /\ length (tasks (run demo_parse w' evs)) = length (tasks demo_open)
  /\ (forall j, timer_fire (run demo_parse w' evs) j = spend (run demo_parse w' evs) j
                \/ timer_fire (run demo_parse w' evs) j = run demo_parse w' evs).
Proof.
  intros evs.
  apply (destroy_with_transport demo_parse demo_open 0%nat evs).
  - vm_compute. reflexivity.
  - intros Hin.
    repeat (apply elem_of_cons in Hin as [Hin|Hin]; [discriminate|]).
    inversion Hin.
Defined.

(** C6 on the code: on a session that never connected, [this.socket] is
    undefined and [destroy] throws before it sets the flag; and after a
    [destroy] that went through, the closure of the socket still moves the
    retry counter and arms a timer. *)
Lemma destroy_without_transport_throws :
  (exists msg, destroy demo_new = (demo_new, Throw (TypeError msg)))
  /\ destroyed (client (fst (destroy demo_new))) = false
  /\ reconnectTries (client (fst (destroy demo_open))) = 0
  /\ reconnectTries
       (client (fire demo_parse (fst (destroy demo_open)) (SockClose 0 1000))) = 1
  /\ timers (fire demo_parse (fst (destroy demo_open)) (SockClose 0 1000))
     = [{| delay := Some 2000; fired := false |}].
Proof.
  split; [eexists; vm_compute; reflexivity|].
  repeat split; vm_compute; reflexivity.
Qed.
(** * Further properties of the client *)

(** ** send: the envelope *)

Lemma split_slash_cons (str : string) :
  exists x xs, split_slash str = x :: xs.
Proof.
  destruct str as [|c rest]; cbn [split_slash]; [eauto|].
  destruct (Ascii.eqb c "/"); [eauto|]. destruct (split_slash rest); eauto.
Qed.

Lemma split_slash_plain (str : string) :
  contains_slash str = false -> split_slash str = [str].
Proof.
  induction str as [|c rest IH]; cbn [split_slash contains_slash]; [done|].
  destruct (Ascii.eqb c "/"); cbn [orb]; [done|].
  intros H. by rewrite (IH H).
Qed.

Lemma split_slash_join (str : string) : join "/" (split_slash str) = str.
Proof.
  induction str as [|c rest IH]; cbn [split_slash]; [done|].
  destruct (split_slash_cons rest) as (x & xs & E). rewrite E in *.
  destruct (Ascii.eqb_spec c "/") as [->|Hne].
  - change (join "/" ("" :: x :: xs)) with ("" +:+ "/" +:+ join "/" (x :: xs)).
    by rewrite IH.
  - destruct xs as [|y ys].
    + cbn [join] in *. by subst.
    + change (join "/" (String c x :: y :: ys))
        with (String c x +:+ "/" +:+ join "/" (y :: ys)).
      change (join "/" (x :: y :: ys))
        with (x +:+ "/" +:+ join "/" (y :: ys)) in IH.
      by rewrite <- IH.
Qed.

Lemma split_slash_head (str : string) :
  exists sv rest, split_slash str = sv :: rest /\ contains_slash sv = false
    /\ (contains_slash str = false -> rest = [])
    /\ (contains_slash str = true -> str = sv +:+ "/" +:+ join "/" rest).
Proof.
  induction str as [|c rest IH]; cbn [split_slash contains_slash].
  - exists "", []. repeat split; auto. discriminate.
  - destruct (Ascii.eqb_spec c "/") as [->|Hne]; cbn [orb].
    + exists "", (split_slash rest). repeat split; auto; [discriminate|].
      intros _. by rewrite split_slash_join.
    + destruct IH as (sv & tl & -> & Hsv & Hplain & Hslash).
      exists (String c sv), tl. repeat split; auto.
      * cbn [contains_slash]. apply Ascii.eqb_neq in Hne. by rewrite Hne.
      * intros H.
        transitivity (String c (sv +:+ "/" +:+ join "/" tl)); [|reflexivity].
        f_equal. by apply Hslash.
Qed.

(** X1. The envelope written by [send] on the current socket: its service
    is the part of the path before the first slash, its action is all that
    follows that slash (the empty string when the path has no slash, the
    service being then the whole path), its correlation id is the session id
    and the counter, and kind and data are the arguments. *)
Theorem send_envelope_fields (w : World) (ty : PacketType) (path_ : string)
    (data : option json) (k : nat) (sk : WebSocket) :
  socket (client w) = Some k ->
  sockets w !! k = Some sk ->
  exists service action,
    last_sent (fst (send w ty path_ data)) k
    = Some {| s := Some service; n := Some action; t := ty; d := data;
              i := pending_id w (callbacks (client w)) |}
    /\ contains_slash service = false
    /\ (if contains_slash path_ then path_ = service +:+ "/" +:+ action
        else service = path_ /\ action = "").
Proof.
  intros Hsock Hsk.
  destruct (split_slash_head path_) as (sv & rest & E & Hsv & Hplain & Hslash).
  exists sv, (join "/" rest).
  unfold last_sent. rewrite (send_frame w ty path_ data k sk Hsock Hsk), E.
  simpl. rewrite last_snoc. split; [reflexivity|]. split; [exact Hsv|].
  destruct (contains_slash path_) eqn:Hc.
  - by apply Hslash.
  - rewrite (Hplain eq_refl) in *. split; [|reflexivity].
    pose proof (split_slash_plain path_ Hc) as E'. congruence.
Qed.

Lemma send_envelope_fields_demo :
  exists service action,
    last_sent (fst (send demo_open Watch "feed/prices/eur" None)) 0
    = Some {| s := Some service; n := Some action; t := Watch; d := None;
              i := pending_id demo_open (callbacks (client demo_open)) |}
    /\ contains_slash service = false
    /\ (if contains_slash "feed/prices/eur" then "feed/prices/eur" = service +:+ "/" +:+ action
        else service = "feed/prices/eur" /\ action = "").
Proof.
  apply (send_envelope_fields demo_open Watch "feed/prices/eur" None 0%nat
           {| sent := [{| s := Some "auth"; n := Some "login"; t := Call;
                          d := Some (JObj [("s", JStr "svc")]); i := "U-0" |}];
              opened := true; closed := false |}).
  - vm_compute. reflexivity.
  - vm_compute. reflexivity.
Defined.

(** ** Settled promises *)

Lemma settle_promise_stable (w : World) (p q : nat) (st st' : Settlement) :
  promises w !! q = Some st' -> st' <> Pending ->
  promises (settle_promise w p st) !! q = Some st'.
Proof.
  intros Hq Hne. unfold settle_promise.
  destruct (promises w !! p) as [[| v | e]|] eqn:Hp; auto.
  simpl. destruct (decide (p = q)) as [->|Hpq]; [congruence|].
  by rewrite list_lookup_insert_ne.
Qed.

Lemma invoke_stable (w : World) (h : Handler) (packet : json) (q : nat)
    (st : Settlement) :
  promises w !! q = Some st -> st <> Pending ->
  promises (fst (invoke w h packet)) !! q = Some st.
Proof.
  intros Hq Hne. unfold invoke, settle, resolve, reject.
  repeat case_match; simpl; auto using settle_promise_stable.
Qed.

Lemma handle_stable (w : World) (packet : json) (q : nat) (st : Settlement) :
  promises w !! q = Some st -> st <> Pending ->
  promises (fst (handle w packet)) !! q = Some st.
Proof.
  intros Hq Hne.
  handle_worlds w packet; auto using invoke_stable.
Qed.

Lemma send_stable (w : World) (ty : PacketType) (path_ : string)
    (data : option json) (q : nat) (st : Settlement) :
  promises w !! q = Some st ->
  promises (fst (send w ty path_ data)) !! q = Some st.
Proof.
  intros Hq. destruct (send_promises w ty path_ data) as (st' & -> & _).
  by apply lookup_app_l_Some.
Qed.

Lemma resume_stable (w : World) (task q : nat) (st : Settlement) :
  promises w !! q = Some st -> promises (resume w task) !! q = Some st.
Proof.
  intros Hq.
  destruct (resume_cases w task)
    as [-> | [(k & sk & _ & _ & _ & ->) | [(p & v & _ & _ & ->) | (p & e & _ & _ & ->)]]];
    auto.
  unfold begin_login, call. simpl. by apply send_stable.
Qed.

Section Settled.

Variable JSON_parse : string -> option json.

Lemma fire_stable (w : World) (ev : Event) (q : nat) (st : Settlement) :
  promises w !! q = Some st -> st <> Pending ->
  promises (fire JSON_parse w ev) !! q = Some st.
Proof.
  intros Hq Hne.
  destruct (silent ev) eqn:Hs.
  { by destruct (fire_silent JSON_parse w ev Hs) as (_ & -> & _). }
  destruct ev; try discriminate; simpl.
  - by apply send_stable.
  - done.
  - unfold on_socket. case_match; [|done].
    unfold on_message. case_match; [|done]. by apply handle_stable.
  - by apply resume_stable.
Qed.

Lemma run_stable (w : World) (evs : list Event) (q : nat) (st : Settlement) :
  promises w !! q = Some st -> st <> Pending ->
  promises (run JSON_parse w evs) !! q = Some st.
Proof.
  revert w. induction evs as [|ev evs IH]; intros w Hq Hne; simpl; [done|].
  apply IH; [|done]. by apply fire_stable.
Qed.

(** X2. Once the promise of a call is fulfilled or rejected, nothing that
    happens to the session changes its result: after any events it is what
    it was, and an envelope dispatched then, whatever handler it reaches,
    calls [resolve] or [reject] without effect. *)
Theorem settled_call_is_final (w : World) (evs : list Event) (q : nat)
    (st : Settlement) :
  promises w !! q = Some st -> st <> Pending ->
  promises (run JSON_parse w evs) !! q = Some st
  /\ forall packet,
       promises (fst (handle (run JSON_parse w evs) packet)) !! q = Some st.
Proof.
  intros Hq Hne.
  assert (promises (run JSON_parse w evs) !! q = Some st) as Hrun
    by by apply run_stable.
  split; [exact Hrun|].
  intros packet. by apply handle_stable.
Qed.

(** X3. [send] on a session without a transport: the executor throws in
    [write], so the promise returned is rejected at once with the
    [TypeError] and stays so whatever happens later; the one-shot entry has
    been pushed all the same and the counter has moved. *)
Theorem send_without_transport (w : World) (ty : PacketType) (path_ : string)
    (data : option json) (evs : list Event) :
  socket (client w) = None ->
  let w1 := fst (send w ty path_ data) in
  let p := snd (send w ty path_ data) in
  let e := TypeError "Cannot read properties of undefined (reading 'send')" in
  promises w1 !! p = Some (Rejected e)
  /\ handlers (client w1)
     = handlers (client w)
       ++ [{| ref := next_ref w; name := pending_id w (callbacks (client w));
              type := Callback; handler := Settle p |}]
  /\ callbacks (client w1) = (callbacks (client w) + 1)%N
  /\ sockets w1 = sockets w
  /\ promises (run JSON_parse w1 evs) !! p = Some (Rejected e).
Proof.
  intros Hsock w1 p e.
  destruct (send_shape w ty path_ data) as (Hp & Hhs & Hcb & _).
  assert (promises w1 !! p = Some (Rejected e)) as Hrej.
  { subst w1 p. rewrite Hp. unfold send, write, reject. simpl. rewrite Hsock.
    simpl. apply settle_promise_lookup. simpl.
    by rewrite list_lookup_middle. }
  split; [exact Hrej|]. split; [subst p; by rewrite Hp|].
  split; [exact Hcb|]. split.
  - subst w1. unfold send, write, reject. simpl. rewrite Hsock. simpl.
    by rewrite settle_promise_sockets.
  - by apply run_stable.
Qed.

End Settled.

Lemma settled_call_is_final_demo :
  promises (run demo_parse demo_open [SockMessage 0 "login-ok"; SockClose 0 1006])
    !! 0%nat
  = Some (Fulfilled (JObj [("status", JNum 200)]))
  /\ forall packet,
       promises (fst (handle (run demo_parse demo_open
                                [SockMessage 0 "login-ok"; SockClose 0 1006])
                        packet)) !! 0%nat
       = Some (Fulfilled (JObj [("status", JNum 200)])).
Proof.
  apply (settled_call_is_final demo_parse demo_open).
  - vm_compute. reflexivity.
  - discriminate.
Defined.

Lemma send_without_transport_demo :
  let w1 := fst (send demo_new Call "math/add" None) in
  let p := snd (send demo_new Call "math/add" None) in
  let e := TypeError "Cannot read properties of undefined (reading 'send')" in
  promises w1 !! p = Some (Rejected e)
  /\ handlers (client w1)
     = handlers (client demo_new)
       ++ [{| ref := next_ref demo_new;
              name := pending_id demo_new (callbacks (client demo_new));
              type := Callback; handler := Settle p |}]
  /\ callbacks (client w1) = (callbacks (client demo_new) + 1)%N
  /\ sockets w1 = sockets demo_new
  /\ promises (run demo_parse w1 [DoConnect; SockOpen 0]) !! p = Some (Rejected e).
Proof.
  apply (send_without_transport demo_parse demo_new Call "math/add" None
           [DoConnect; SockOpen 0]).
  reflexivity.
Defined.

(** ** Durable handlers *)

Lemma find_app_skip (P : Handler -> bool) (hs1 hs2 : list Handler) :
  (forall h, h ∈ hs1 -> P h = false) -> find P (hs1 ++ hs2) = find P hs2.
Proof.
  induction hs1 as [|h hs1 IH]; simpl; intros H; [reflexivity|].
  rewrite (H h) by constructor. apply IH. intros h' Hh'. apply H. by constructor.
Qed.

Lemma handle_user (w : World) (packet : json) (h : Handler)
    (f : json -> Completion) :
  is_callback (get_prop packet "t") = false ->
  findHandler (handlers (client w)) (get_prop packet "n") (get_prop packet "t")
  = Some h ->
  handler h = UserFn f ->
  handle w packet = (record_call w (ref h) packet, f packet).
Proof.
  intros Hcb Hfind Hf. rewrite (handle_other w packet h Hcb Hfind).
  unfold invoke. by rewrite Hf.
Qed.

Lemma dispatch_times_user (times : nat) (w : World) (packet : json)
    (h : Handler) (f : json -> Completion) :
  is_callback (get_prop packet "t") = false ->
  findHandler (handlers (client w)) (get_prop packet "n") (get_prop packet "t")
  = Some h ->
  handler h = UserFn f ->
  client (dispatch_times times w packet) = client w
  /\ invoked (dispatch_times times w packet)
     = invoked w ++ replicate times (ref h, packet).
Proof.
  intros Hcb Hfind Hf. induction times as [|times [IHc IHi]]; simpl.
  - by rewrite app_nil_r.
  - rewrite <- IHc in Hfind.
    rewrite (handle_user _ packet h f Hcb Hfind Hf). simpl.
    split; [exact IHc|]. rewrite IHi, <- app_assoc. f_equal.
    change ([(ref h, packet)]) with (replicate 1 (ref h, packet)).
    rewrite <- replicate_add. by replace (times + 1)%nat with (S times) by lia.
Qed.

Lemma not_callback_tag (ty : PacketType) :
  ty <> Callback -> is_callback (Some (JStr (tag ty))) = false.
Proof. by destruct ty. Qed.

(** X4. A handler registered with [registerMethod], [registerWatcher] or
    [registerHandler] under a kind other than callback, where no earlier
    entry has that name and kind, receives every inbound envelope of that
    kind and action: [handle] completes as the handler does, each dispatch
    invokes it once with the envelope, and the client, registry included, is
    the same after any number of dispatches. *)
Theorem durable_handler_dispatch (w : World) (nm : string) (ty : PacketType)
    (f : json -> Completion) (packet : json) (times : nat) :
  ty <> Callback ->
  kind_is packet ty ->
  get_prop packet "n" = Some (JStr nm) ->
  (forall h, h ∈ handlers (client w) -> name h = nm -> type h <> ty) ->
  let w1 := registerHandler w nm ty f in
  snd (handle w1 packet) = f packet
  /\ client (dispatch_times times w1 packet) = client w1
  /\ invoked (dispatch_times times w1 packet)
     = invoked w ++ replicate times (next_ref w, packet).
Proof.
  intros Hty Hkind Hn Hfresh w1.
  set (hnew := {| ref := next_ref w; name := nm; type := ty; handler := UserFn f |}).
  assert (is_callback (get_prop packet "t") = false) as Hcb
    by (rewrite Hkind; by apply not_callback_tag).
  assert (findHandler (handlers (client w1)) (get_prop packet "n")
            (get_prop packet "t") = Some hnew) as Hfind.
  { unfold findHandler. subst w1. simpl. rewrite find_app_skip.
    - simpl. rewrite Hn, Hkind. fold hnew.
      by rewrite (proj2 (matches_tag (Some (JStr nm)) ty hnew)).
    - intros h Hh. rewrite Hn, Hkind.
      destruct (matches _ _ h) eqn:E; [|reflexivity].
      apply matches_tag in E as [[= E] Hty'].
      by destruct (Hfresh h Hh). }
  split.
  - by rewrite (handle_user w1 packet hnew f Hcb Hfind).
  - by apply (dispatch_times_user times w1 packet hnew f).
Qed.

(** X5. [registerHandler] does not look for duplicates and [findHandler]
    returns the first match: of two handlers registered under the same name
    and the same kind other than callback, only the first is ever invoked;
    the second is in the registry and is never reached. *)
Theorem first_registration_wins (w : World) (nm : string) (ty : PacketType)
    (f1 f2 : json -> Completion) (packet : json) (times : nat) :
  ty <> Callback ->
  kind_is packet ty ->
  get_prop packet "n" = Some (JStr nm) ->
  (forall h, h ∈ handlers (client w) -> name h = nm -> type h <> ty) ->
  let w2 := registerHandler (registerHandler w nm ty f1) nm ty f2 in
  snd (handle w2 packet) = f1 packet
  /\ handlers (client w2)
     = handlers (client w)
       ++ [{| ref := next_ref w; name := nm; type := ty; handler := UserFn f1 |};
           {| ref := S (next_ref w); name := nm; type := ty; handler := UserFn f2 |}]
  /\ client (dispatch_times times w2 packet) = client w2
  /\ invoked (dispatch_times times w2 packet)
     = invoked w ++ replicate times (next_ref w, packet).
Proof.
  intros Hty Hkind Hn Hfresh w2.
  set (h1 := {| ref := next_ref w; name := nm; type := ty; handler := UserFn f1 |}).
  assert (is_callback (get_prop packet "t") = false) as Hcb
    by (rewrite Hkind; by apply not_callback_tag).
  assert (handlers (client w2) = handlers (client w) ++ [h1;
            {| ref := S (next_ref w); name := nm; type := ty; handler := UserFn f2 |}])
    as Hhs by (subst w2; simpl; by rewrite <- app_assoc).
  assert (findHandler (handlers (client w2)) (get_prop packet "n")
            (get_prop packet "t") = Some h1) as Hfind.
  { unfold findHandler. rewrite Hhs, find_app_skip.
    - simpl. rewrite Hn, Hkind. fold h1.
      by rewrite (proj2 (matches_tag (Some (JStr nm)) ty h1)).
    - intros h Hh. rewrite Hn, Hkind.
      destruct (matches _ _ h) eqn:E; [|reflexivity].
      apply matches_tag in E as [[= E] Hty'].
      by destruct (Hfresh h Hh). }
  split; [by rewrite (handle_user w2 packet h1 f1 Hcb Hfind)|].
  split; [exact Hhs|].
  by apply (dispatch_times_user times w2 packet h1 f1).
Qed.

Lemma demo_ping_fresh (h : Handler) :
  h ∈ handlers (client demo_open) -> name h = "ping" -> type h <> Call.
Proof. intros Hh. vm_compute in Hh. inversion Hh. Qed.

Lemma durable_handler_dispatch_demo :
  let packet := JObj [("t", JStr "call"); ("n", JStr "ping"); ("i", JStr "x")] in
  let w1 := registerHandler demo_open "ping" Call (fun _ => Normal) in
  snd (handle w1 packet) = Normal
  /\ client (dispatch_times 3 w1 packet) = client w1
  /\ invoked (dispatch_times 3 w1 packet)
     = invoked demo_open ++ replicate 3 (next_ref demo_open, packet).
Proof.
  intros packet.
  apply (durable_handler_dispatch demo_open "ping" Call (fun _ => Normal) packet 3).
  - discriminate.
  - reflexivity.
  - reflexivity.
  - exact demo_ping_fresh.
Defined.

Lemma first_registration_wins_demo :
  let packet := JObj [("t", JStr "call"); ("n", JStr "ping"); ("i", JStr "x")] in
  let w2 := registerHandler
              (registerHandler demo_open "ping" Call (fun _ => Normal))
              "ping" Call (fun _ => Throw (Error "second")) in
  snd (handle w2 packet) = Normal
  /\ handlers (client w2)
     = handlers (client demo_open)
       ++ [{| ref := next_ref demo_open; name := "ping"; type := Call;
              handler := UserFn (fun _ => Normal) |};
           {| ref := S (next_ref demo_open); name := "ping"; type := Call;
              handler := UserFn (fun _ => Throw (Error "second")) |}]
  /\ client (dispatch_times 2 w2 packet) = client w2
  /\ invoked (dispatch_times 2 w2 packet)
     = invoked demo_open ++ replicate 2 (next_ref demo_open, packet).
Proof.
  intros packet.
  apply (first_registration_wins demo_open "ping" Call (fun _ => Normal)
           (fun _ => Throw (Error "second")) packet 2).
  - discriminate.
  - reflexivity.
  - reflexivity.
  - exact demo_ping_fresh.
Defined.

(** ** Envelopes outside the wire format *)

Lemma falsy_kind_not_callback (ty : option json) :
  truthy ty = false -> is_callback ty = false.
Proof. destruct ty as [[| | | str | |]|]; try done. by destruct str. Qed.

Lemma find_ext_handlers (P Q : Handler -> bool) (hs : list Handler) :
  (forall h, P h = Q h) -> find P hs = find Q hs.
Proof.
  intros H. induction hs as [|h hs IH]; simpl; [done|]. by rewrite H, IH.
Qed.

(** X6. For an envelope whose kind [t] is missing or falsy, [findHandler]
    tests the name alone: the envelope goes to the first handler whose name
    is its action [n], whatever the kind that handler was registered under,
    one-shot entries of pending calls included; the handler found is
    invoked, and if there is none [emit('error', new Error('Invalid
    packet'))] is called, which throws that error when no ['error']
    listener is attached. The envelope not being a callback, the client and
    its registry are left as they were. *)
Theorem kindless_envelope_matches_by_name (w : World) (packet : json) (nm : string) :
  truthy (get_prop packet "t") = false ->
  get_prop packet "n" = Some (JStr nm) ->
  handle w packet
  = match first_named (handlers (client w)) nm with
    | Some h => invoke w h packet
    | None => emit w (EvError (Error "Invalid packet"))
    end
  /\ (first_named (handlers (client w)) nm = None ->
      snd (handle w packet)
      = if Nat.eqb (error_listeners w) 0 then Throw (Error "Invalid packet")
        else Normal)
  /\ client (fst (handle w packet)) = client w.
Proof.
  intros Hfalsy Hn.
  pose proof (falsy_kind_not_callback _ Hfalsy) as Hcb.
  assert (findHandler (handlers (client w)) (get_prop packet "n")
            (get_prop packet "t") = first_named (handlers (client w)) nm) as Hfind.
  { unfold findHandler, first_named. apply find_ext_handlers. intros h.
    unfold matches. rewrite Hn, Hfalsy. simpl. apply andb_true_r. }
  assert (handle w packet
          = match first_named (handlers (client w)) nm with
            | Some h => invoke w h packet
            | None => emit w (EvError (Error "Invalid packet"))
            end) as E.
  { destruct (first_named (handlers (client w)) nm) as [h|] eqn:E.
    - by apply handle_other.
    - apply handle_no_handler. by rewrite Hcb, Hfind. }
  split; [exact E|]. split; [|by apply handle_other_kind_client].
  intros Hnone. rewrite E, Hnone, emit_error. reflexivity.
Qed.

Lemma kindless_envelope_matches_by_name_demo :
  let packet := JObj [("n", JStr "U-1"); ("d", JObj [])] in
  handle demo_pending packet
  = match first_named (handlers (client demo_pending)) "U-1" with
    | Some h => invoke demo_pending h packet
    | None => emit demo_pending (EvError (Error "Invalid packet"))
    end
  /\ (first_named (handlers (client demo_pending)) "U-1" = None ->
      snd (handle demo_pending packet)
      = if Nat.eqb (error_listeners demo_pending) 0
        then Throw (Error "Invalid packet") else Normal)
  /\ client (fst (handle demo_pending packet)) = client demo_pending.
Proof.
  intros packet.
  apply (kindless_envelope_matches_by_name demo_pending packet "U-1");
    reflexivity.
Defined.

Section Frames.

Variable JSON_parse : string -> option json.

(** X7. Frames that decode but are no envelope. A frame that decodes to
    [null], [false], [0] or the empty string is dropped like a malformed
    one: nothing changes and nothing is emitted. A frame that decodes to
    anything else whose kind is not callback and whose action [n] is not a
    string (a number, an array, an object without [n]) reaches no handler
    whatever the registry holds: the listener calls [emit('error', new
    Error('Invalid packet'))], which delivers the event when an ['error']
    listener is attached and throws the error out of the listener when none
    is; the session is otherwise unchanged. *)
Theorem non_envelope_frames (w : World) (data : string) (packet : json) :
  JSON_parse data = Some packet ->
  (truthy (Some packet) = false -> on_message JSON_parse w data = (w, Normal))
  /\ (truthy (Some packet) = true ->
      is_callback (get_prop packet "t") = false ->
      (forall nm, get_prop packet "n" <> Some (JStr nm)) ->
      on_message JSON_parse w data
      = (log_event w (EvError (Error "Invalid packet")),
         if Nat.eqb (error_listeners w) 0 then Throw (Error "Invalid packet")
         else Normal)).
Proof.
  intros Hparse. unfold on_message, parseJSON. rewrite Hparse. split.
  - by intros ->.
  - intros -> Hcb Hn. rewrite <- emit_error. apply handle_no_handler. rewrite Hcb.
    apply find_none. intros h _. unfold matches.
    destruct (get_prop packet "n") as [[| | | nm | |]|]; try reflexivity.
    by destruct (Hn nm).
Qed.

End Frames.

Lemma non_envelope_frames_demo :
  on_message demo_parse_values demo_pending "0" = (demo_pending, Normal)
  /\ on_message demo_parse_values demo_pending "[]"
     = (log_event demo_pending (EvError (Error "Invalid packet")),
        if Nat.eqb (error_listeners demo_pending) 0
        then Throw (Error "Invalid packet") else Normal)
  /\ on_message demo_parse_values demo_listening "[]"
     = (log_event demo_listening (EvError (Error "Invalid packet")),
        if Nat.eqb (error_listeners demo_listening) 0
        then Throw (Error "Invalid packet") else Normal).
Proof.
  split; [|split].
  - apply (non_envelope_frames demo_parse_values demo_pending "0" (JNum 0));
      reflexivity.
  - apply (non_envelope_frames demo_parse_values demo_pending "[]" (JArr []));
      try reflexivity.
    intros nm. discriminate.
  - apply (non_envelope_frames demo_parse_values demo_listening "[]" (JArr []));
      try reflexivity.
    intros nm. discriminate.
Defined.

(** The two outcomes of X7 on the sample session: thrown without an
    ['error'] listener, delivered with one. *)
Lemma scenario_non_envelope :
  snd (on_message demo_parse_values demo_pending "[]") = Throw (Error "Invalid packet")
  /\ snd (on_message demo_parse_values demo_listening "[]") = Normal.
Proof. vm_compute. split; reflexivity. Qed.

(** ** connect: token, host and port *)

Lemma insert_snoc_last {A : Type} (l : list A) (x y : A) :
  <[length l := y]> (l ++ [x]) = l ++ [y].
Proof.
  replace (length l) with (length l + 0)%nat by lia. by rewrite insert_app_r.
Qed.

(** X8. The token in [connect]. With a non-empty token configured,
    [connect] creates the socket at once and asks nobody for a token. With
    no token, or an empty one, it creates no socket and waits for
    [getServiceToken]; when that settles, the token becomes the one
    obtained, or the empty string when the acquisition failed, and the
    socket is created either way. An empty token being falsy, the next
    [connect] asks for a token again, while a non-empty one obtained is
    reused. *)
Theorem connect_token (w : World) :
  let task := length (tasks w) in
  (nonempty (token (opts (client w))) = true ->
   tasks (connect w) = tasks w ++ [AwaitOpen (length (sockets w))]
   /\ sockets (connect w) = sockets w ++ [fresh_socket]
   /\ socket (client (connect w)) = Some (length (sockets w))
   /\ token (opts (client (connect w))) = token (opts (client w)))
  /\ (nonempty (token (opts (client w))) = false ->
      tasks (connect w) = tasks w ++ [AwaitToken]
      /\ sockets (connect w) = sockets w
      /\ socket (client (connect w)) = socket (client w)
      /\ forall r : option string,
           let tk := match r with Some tk => tk | None => "" end in
           let w2 := token_settled (connect w) task r in
           token (opts (client w2)) = Some tk
           /\ tasks w2 = tasks w ++ [AwaitOpen (length (sockets w))]
           /\ sockets w2 = sockets w ++ [fresh_socket]
           /\ socket (client w2) = Some (length (sockets w))
           /\ tasks (connect w2)
              = tasks w2 ++ [if String.eqb tk "" then AwaitToken
                             else AwaitOpen (S (length (sockets w)))]).
Proof.
  intros task. split; intros Htok.
  - unfold connect, open_socket. simpl. rewrite Htok. simpl.
    by rewrite insert_snoc_last.
  - assert (connect w
            = set_tasks
                (with_client w
                   (set_opts (client w)
                      (set_host_port (opts (client w))
                         (if nonempty (host (opts (client w)))
                          then host (opts (client w)) else Some DEFAULT_HOST)
                         (if nonzero (port (opts (client w)))
                          then port (opts (client w)) else Some DEFAULT_PORT))))
                (tasks w ++ [AwaitToken])) as E.
    { unfold connect. simpl. by rewrite Htok. }
    split; [by rewrite E|]. split; [by rewrite E|]. split; [by rewrite E|].
    intros r tk w2.
    assert (w2 = open_socket
                   (with_client (connect w)
                      (set_opts (client (connect w))
                         (set_token (opts (client (connect w))) (Some tk)))) task)
      as E2.
    { unfold w2, token_settled. rewrite E. simpl.
      by rewrite list_lookup_middle. }
    rewrite E2, E. unfold open_socket, task. simpl.
    rewrite insert_snoc_last. repeat split.
    unfold connect, open_socket. simpl.
    rewrite length_app, Nat.add_1_r. simpl.
    destruct (String.eqb tk ""); simpl; [reflexivity|].
    by rewrite insert_snoc_last.
Qed.

Lemma port_443_case {A : Type} (p : Z) (a b : A) :
  match p with 443 => a | _ => b end = if p =? 443 then a else b.
Proof.
  destruct p as [|q|q]; try reflexivity.
  do 9 (destruct q as [q|q|]; try reflexivity).
Qed.

(** X9. Host and port in [connect]. After [connect], host and port are
    set: a non-empty host and a non-zero port are kept, anything else is
    replaced by 127.0.0.1 and 9998, and the path is not touched; the socket
    endpoint is then [ws] or [wss], by the port being 443 or not, followed
    by that host, that port and the path; a second [connect] changes none of
    them; and the HTTP scheme is secure exactly when the socket scheme is. *)
Theorem connect_endpoint (w : World) :
  let o := opts (client w) in
  let c := client (connect w) in
  exists h p,
    host (opts c) = Some h /\ h <> "" /\ port (opts c) = Some p /\ p <> 0
    /\ (nonempty (host o) = true -> host o = Some h)
    /\ (nonempty (host o) = false -> h = DEFAULT_HOST)
    /\ (nonzero (port o) = true -> port o = Some p)
    /\ (nonzero (port o) = false -> p = DEFAULT_PORT)
    /\ path (opts c) = path o
    /\ wsEndpoint c
       = (if p =? 443 then "wss" else "ws") +:+ "://" +:+ h +:+ ":" +:+ pretty p
         +:+ show_string (path o)
    /\ host (opts (client (connect (connect w)))) = Some h
    /\ port (opts (client (connect (connect w)))) = Some p
    /\ (protocol c = "https" <-> wsProtocol c = "wss").
Proof.
  intros o c.
  assert (forall x, opts (client (connect x))
            = set_host_port (opts (client x))
                (if nonempty (host (opts (client x)))
                 then host (opts (client x)) else Some DEFAULT_HOST)
                (if nonzero (port (opts (client x)))
                 then port (opts (client x)) else Some DEFAULT_PORT)) as Hopts.
  { intros x. unfold connect, open_socket. by case_match. }
  assert (exists h, (if nonempty (host o) then host o else Some DEFAULT_HOST) = Some h
                    /\ h <> "" /\ nonempty (Some h) = true
                    /\ (nonempty (host o) = true -> host o = Some h)
                    /\ (nonempty (host o) = false -> h = DEFAULT_HOST))
    as (h & Hh & Hne & Hnh & Hkeep & Hdef).
  { destruct (nonempty (host o)) eqn:E.
    - destruct (host o) as [h|] eqn:Eh; [|discriminate]. exists h.
      repeat split; auto; try discriminate.
      intros ->. simpl in E. discriminate.
    - exists DEFAULT_HOST. by repeat split. }
  assert (exists p, (if nonzero (port o) then port o else Some DEFAULT_PORT) = Some p
                    /\ p <> 0 /\ nonzero (Some p) = true
                    /\ (nonzero (port o) = true -> port o = Some p)
                    /\ (nonzero (port o) = false -> p = DEFAULT_PORT))
    as (p & Hp & Hnz & Hnp & Hkeepp & Hdefp).
  { destruct (nonzero (port o)) eqn:E.
    - destruct (port o) as [p|] eqn:Ep; [|discriminate]. exists p.
      repeat split; auto; try discriminate.
      intros ->. simpl in E. discriminate.
    - exists DEFAULT_PORT. by repeat split. }
  exists h, p. subst c. unfold wsEndpoint, wsProtocol, protocol.
  rewrite (Hopts (connect w)), !(Hopts w). fold o. simpl. rewrite Hh, Hp. simpl.
  simpl in Hnh, Hnp. rewrite Hnh, Hnp, !port_443_case.
  repeat split; auto; destruct (p =? 443); congruence.
Qed.

Lemma connect_token_demo :
  tasks (connect demo_new) = tasks demo_new ++ [AwaitOpen (length (sockets demo_new))]
  /\ sockets (connect demo_new) = sockets demo_new ++ [fresh_socket]
  /\ socket (client (connect demo_new)) = Some (length (sockets demo_new))
  /\ token (opts (client (connect demo_new))) = token (opts (client demo_new)).
Proof.
  apply (connect_token demo_new). reflexivity.
Defined.

(** ** Reconnection switched off *)

Lemma connect_tasks_length (w : World) :
  length (tasks (connect w)) = S (length (tasks w)).
Proof.
  unfold connect, open_socket. case_match; simpl;
    rewrite ?length_insert, length_app; simpl; lia.
Qed.

Lemma connect_timers (w : World) : timers (connect w) = timers w.
Proof. unfold connect, open_socket. by case_match. Qed.

Lemma resume_quiet (w : World) (task : nat) :
  timers (resume w task) = timers w
  /\ length (tasks (resume w task)) = length (tasks w)
  /\ (reconnectTries (client w) = 0 -> reconnectTries (client (resume w task)) = 0).
Proof.
  destruct (resume_destroyed w task) as [_ Hlen].
  split; [|split; [exact Hlen|]].
  - destruct (resume_cases w task)
      as [-> | [(k & sk & _ & _ & _ & ->) | [(p & v & _ & _ & ->) | (p & e & _ & _ & ->)]]];
      auto.
    by destruct (begin_login_fields w task) as (_ & _ & _ & _ & _ & -> & _).
  - intros H0.
    destruct (resume_backoff w task) as (_ & [[-> _] | (-> & _)]); auto.
Qed.

Section NoReconnect.

Variable JSON_parse : string -> option json.

Lemma fire_without_reconnect (w : World) (ev : Event) :
  is_true (autoReconnect (opts (client w))) = false ->
  timers w = [] -> reconnectTries (client w) = 0 ->
  timers (fire JSON_parse w ev) = []
  /\ reconnectTries (client (fire JSON_parse w ev)) = 0
  /\ length (tasks (fire JSON_parse w ev))
     = (length (tasks w) + connect_calls [ev])%nat.
Proof.
  intros Hoff Htm Htr. destruct ev; simpl.
  - rewrite connect_timers, connect_tasks_length.
    destruct (connect_backoff w) as (_ & -> & _). repeat split; auto. lia.
  - unfold destroy. case_match; simpl; repeat split; auto; lia.
  - destruct (send_client w ty path_ data) as (_ & _ & -> & _).
    destruct (send_world w ty path_ data) as (_ & -> & -> & _).
    repeat split; auto; lia.
  - repeat split; auto; lia.
  - unfold on_socket. case_match; simpl; repeat split; auto; lia.
  - unfold on_socket. case_match; [|repeat split; auto; lia].
    unfold on_message. case_match; [|simpl; repeat split; auto; lia].
    rewrite handle_timers, handle_tasks, handle_client. simpl.
    repeat split; auto; lia.
  - unfold on_socket, on_error. rewrite emit_fst.
    case_match; simpl; repeat split; auto; lia.
  - unfold on_socket. case_match; [|repeat split; auto; lia].
    rewrite on_close_eq. simpl. rewrite Hoff. simpl. repeat split; auto; lia.
  - unfold timer_fire. rewrite Htm. simpl. repeat split; auto; lia.
  - unfold token_settled, open_socket.
    destruct (tasks w !! task) as [[]|]; simpl; rewrite ?length_insert;
      repeat split; auto; lia.
  - destruct (resume_quiet w task) as (-> & -> & Hz). repeat split; auto; lia.
  - repeat split; auto; lia.
Qed.

(** X10. A session created with [autoReconnect] off never reconnects by
    itself: whatever happens, no timer is ever armed, the retry counter
    stays 0, and the runs of [connect] are exactly the calls of [connect()]
    made by the application. *)
Theorem no_reconnect_when_disabled (uuid : string) (o : Given) (evs : list Event) :
  is_true (autoReconnect (opts (client (new_client uuid o)))) = false ->
  let w := run JSON_parse (new_client uuid o) evs in
  timers w = []
  /\ reconnectTries (client w) = 0
  /\ length (tasks w) = connect_calls evs.
Proof.
  intros Hoff.
  assert (forall w0 : World,
            is_true (autoReconnect (opts (client w0))) = false ->
            timers w0 = [] -> reconnectTries (client w0) = 0 ->
            timers (run JSON_parse w0 evs) = []
            /\ reconnectTries (client (run JSON_parse w0 evs)) = 0
            /\ length (tasks (run JSON_parse w0 evs))
               = (length (tasks w0) + connect_calls evs)%nat) as Hgen.
  { induction evs as [|ev evs IH]; intros w0 H1 H2 H3; simpl.
    - repeat split; auto; lia.
    - destruct (fire_without_reconnect w0 ev H1 H2 H3) as (H2' & H3' & Hlen).
      assert (is_true (autoReconnect (opts (client (fire JSON_parse w0 ev)))) = false)
        as H1'.
      { pose proof (fire_backoff_conf JSON_parse w0 ev) as Hc.
        unfold backoff_conf in Hc. injection Hc as -> _ _. exact H1. }
      destruct (IH (fire JSON_parse w0 ev) H1' H2' H3') as (-> & -> & ->).
      repeat split; auto. rewrite Hlen. simpl. destruct ev; simpl; lia. }
  apply (Hgen (new_client uuid o) Hoff eq_refl eq_refl).
Qed.

End NoReconnect.

Lemma no_reconnect_when_disabled_demo :
  let evs := [DoConnect; SockOpen 0; SockClose 0 1006; TimerFire 0; DoConnect] in
  let w := run demo_parse
             (new_client "M"
                {| given_name := None; given_host := None; given_port := None;
                   given_path := None; given_token := Some (Some "tok");
                   given_autoReconnect := Some (Some false);
                   given_reconnectInterval := None;
                   given_reconnectIntervalMultiplier := None |}) evs in
  timers w = []
  /\ reconnectTries (client w) = 0
  /\ length (tasks w) = connect_calls evs.
Proof.
  intros evs.
  apply (no_reconnect_when_disabled demo_parse "M" _ evs). reflexivity.
Defined.

(** ** The current socket *)

Lemma alter_socket_latest (w : World) (f : WebSocket -> WebSocket) (k : nat) :
  socket_is_latest w -> socket_is_latest (set_sockets w (alter f k (sockets w))).
Proof.
  unfold socket_is_latest. simpl. destruct (socket (client w)).
  - by rewrite length_alter.
  - by intros ->.
Qed.

Lemma open_socket_latest (w : World) (task : nat) :
  socket_is_latest (open_socket w task).
Proof.
  unfold socket_is_latest, open_socket. simpl. rewrite length_app. simpl. lia.
Qed.

Lemma send_socket_latest (w : World) (ty : PacketType) (path_ : string)
    (data : option json) :
  socket_is_latest w -> socket_is_latest (fst (send w ty path_ data)).
Proof.
  unfold socket_is_latest.
  destruct (send_client w ty path_ data) as (_ & -> & _).
  destruct (send_world w ty path_ data) as (_ & _ & _ & Hlen).
  destruct (socket (client w)); [by rewrite Hlen|].
  intros Hnil. apply length_zero_iff_nil. rewrite Hlen, Hnil. reflexivity.
Qed.

Lemma resume_socket_latest (w : World) (task : nat) :
  socket_is_latest w -> socket_is_latest (resume w task).
Proof.
  intros H.
  destruct (resume_cases w task)
    as [-> | [(k & sk & _ & _ & _ & ->) | [(p & v & _ & _ & ->) | (p & e & _ & _ & ->)]]];
    auto.
  unfold begin_login, call.
  exact (send_socket_latest w Call "auth/login"
           (Some (login_payload (opts (client w)))) H).
Qed.

Section CurrentSocket.

Variable JSON_parse : string -> option json.

Lemma fire_socket_latest (w : World) (ev : Event) :
  socket_is_latest w -> socket_is_latest (fire JSON_parse w ev).
Proof.
  intros H. destruct ev; simpl.
  - unfold connect. case_match; [apply open_socket_latest|exact H].
  - unfold destroy. case_match; [|exact H]. simpl.
    by apply (alter_socket_latest w close_socket).
  - by apply send_socket_latest.
  - exact H.
  - unfold on_socket. case_match; [|exact H]. by apply alter_socket_latest.
  - unfold on_socket. case_match; [|exact H].
    unfold on_message. case_match; [|exact H].
    unfold socket_is_latest. by rewrite handle_client, handle_sockets.
  - unfold on_socket, on_error. rewrite emit_fst. by case_match.
  - unfold on_socket. rewrite on_close_eq. simpl. by repeat case_match.
  - unfold timer_fire. repeat case_match; auto.
    unfold connect. case_match; [apply open_socket_latest|exact H].
  - unfold token_settled. repeat case_match; auto; apply open_socket_latest.
  - by apply resume_socket_latest.
  - exact H.
Qed.

(** X11. In every world a session can reach, [this.socket] is undefined as
    long as no socket was created and is the socket created last otherwise;
    so an envelope is always written on the newest socket: [send] leaves the
    frames of every older socket as they are. *)
Theorem writes_go_to_latest_socket (w : World) :
  reachable JSON_parse w ->
  socket_is_latest w
  /\ forall ty path_ data j sk,
       (S j < length (sockets w))%nat ->
       sockets w !! j = Some sk ->
       sockets (fst (send w ty path_ data)) !! j = Some sk.
Proof.
  intros Hreach.
  assert (socket_is_latest w) as Hlatest.
  { induction Hreach; [reflexivity|by apply fire_socket_latest]. }
  split; [exact Hlatest|].
  intros ty path_ data j sk Hj Hsk. unfold send, write, reject. simpl.
  unfold socket_is_latest in Hlatest.
  destruct (socket (client w)) as [k|]; simpl.
  - rewrite list_lookup_alter_ne by lia. exact Hsk.
  - by rewrite settle_promise_sockets.
Qed.

End CurrentSocket.

Lemma demo_reconnected_reachable :
  reachable demo_parse (run demo_parse demo_new demo_dropped).
Proof. apply reachable_run. constructor. Qed.

Lemma writes_go_to_latest_socket_demo :
  socket_is_latest (run demo_parse demo_new demo_dropped)
  /\ forall ty path_ data j sk,
       (S j < length (sockets (run demo_parse demo_new demo_dropped)))%nat ->
       sockets (run demo_parse demo_new demo_dropped) !! j = Some sk ->
       sockets (fst (send (run demo_parse demo_new demo_dropped) ty path_ data)) !! j
       = Some sk.
Proof.
  apply (writes_go_to_latest_socket demo_parse). exact demo_reconnected_reachable.
Defined.

(** ** Pending calls and the life of the connection *)

Lemma find_app_found (P : Handler -> bool) (hs more : list Handler) (h : Handler) :
  find P hs = Some h -> find P (hs ++ more) = Some h.
Proof.
  induction hs as [|h0 hs IH]; simpl; [discriminate|].
  destruct (P h0); auto.
Qed.

Lemma settle_promise_at (w : World) (p : nat) (st : Settlement) :
  promises (settle_promise w p st) !! p
  = match promises w !! p with
    | Some Pending => Some st
    | other => other
    end.
Proof.
  unfold settle_promise.
  destruct (promises w !! p) as [[| v | e]|] eqn:Hp; simpl; auto.
  apply list_lookup_insert_eq. by eapply lookup_lt_Some.
Qed.

(** What the handler of a call does depends on the envelope and on the
    state of its promise only. *)
Lemma settle_same_at (w w' : World) (p : nat) (packet : json) :
  promises w' !! p = promises w !! p ->
  promises (fst (settle w' p packet)) !! p = promises (fst (settle w p packet)) !! p
  /\ snd (settle w' p packet) = snd (settle w p packet).
Proof.
  intros Hp. unfold settle, resolve, reject.
  repeat case_match; simpl; rewrite ?settle_promise_at, ?Hp; auto.
Qed.

Lemma resume_grows (w : World) (task : nat) :
  handlers (client w) `prefix_of` handlers (client (resume w task))
  /\ promises w `prefix_of` promises (resume w task).
Proof.
  destruct (resume_cases w task)
    as [-> | [(k & sk & _ & _ & _ & ->) | [(p & v & _ & _ & ->) | (p & e & _ & _ & ->)]]];
    try done.
  unfold begin_login, call. simpl.
  destruct (send_shape w Call "auth/login"
              (Some (login_payload (opts (client w))))) as (_ & -> & _).
  destruct (send_promises w Call "auth/login"
              (Some (login_payload (opts (client w))))) as (st & -> & _).
  split; by eexists.
Qed.

Section Lifecycle.

Variable JSON_parse : string -> option json.

Lemma fire_lifecycle (w : World) (ev : Event) :
  lifecycle ev = true ->
  handlers (client w) `prefix_of` handlers (client (fire JSON_parse w ev))
  /\ promises w `prefix_of` promises (fire JSON_parse w ev).
Proof.
  destruct (silent ev) eqn:Hs.
  { by destruct (fire_silent JSON_parse w ev Hs) as (-> & -> & _). }
  destruct ev; try discriminate. intros _. apply resume_grows.
Qed.

Lemma run_lifecycle (w : World) (evs : list Event) :
  forallb lifecycle evs = true ->
  handlers (client w) `prefix_of` handlers (client (run JSON_parse w evs))
  /\ promises w `prefix_of` promises (run JSON_parse w evs).
Proof.
  revert w. induction evs as [|ev evs IH]; intros w Hall; simpl; [done|].
  simpl in Hall. apply andb_true_iff in Hall as [Hev Hall].
  destruct (fire_lifecycle w ev Hev) as [Hh Hp].
  destruct (IH (fire JSON_parse w ev) Hall) as [Hh' Hp'].
  split; etrans; eauto.
Qed.

Lemma run_callbacks_mono (w : World) (evs : list Event) :
  (callbacks (client w) <= callbacks (client (run JSON_parse w evs)))%N.
Proof.
  revert w. induction evs as [|ev evs IH]; intros w; simpl; [lia|].
  pose proof (fire_callbacks_mono JSON_parse w ev).
  pose proof (IH (fire JSON_parse w ev)). lia.
Qed.

(** X12. The life of the connection never takes a call away. The closure
    of a socket, a transport error, [destroy], a reconnect timer, a new
    [connect], its socket opening and the login call that follows add to the
    registry and to the promises (the entry and the promise of a login
    call) and change nothing that was there: the counter does not go back,
    every promise is what it was, and the reply to a call made before finds
    the entry of that call and settles it, or makes its handler throw,
    exactly as it would have before those events. *)
Theorem calls_survive_connection_events (w : World) (evs : list Event) :
  forallb lifecycle evs = true ->
  let w' := run JSON_parse w evs in
  handlers (client w) `prefix_of` handlers (client w')
  /\ promises w `prefix_of` promises w'
  /\ (callbacks (client w) <= callbacks (client w'))%N
  /\ (forall q st, promises w !! q = Some st -> promises w' !! q = Some st)
  /\ (forall packet h p st,
        is_callback (get_prop packet "t") = true ->
        callback_lookup w packet = Some h ->
        handler h = Settle p ->
        promises w !! p = Some st ->
        callback_lookup w' packet = Some h
        /\ promises (fst (handle w' packet)) !! p
           = promises (fst (handle w packet)) !! p
        /\ snd (handle w' packet) = snd (handle w packet)).
Proof.
  intros Hall w'.
  destruct (run_lifecycle w evs Hall) as [[hs Hh] [ps Hp]]. fold w' in Hh, Hp.
  assert (forall q st, promises w !! q = Some st -> promises w' !! q = Some st)
    as Hkeep by (intros q st Hq; rewrite Hp; by apply lookup_app_l_Some).
  split; [by exists hs|]. split; [by exists ps|].
  split; [apply run_callbacks_mono|]. split; [exact Hkeep|].
  intros packet h p st Hcb Hfind Hs Hst.
  assert (callback_lookup w' packet = Some h) as Hfind'.
  { unfold callback_lookup in *.
    destruct (String_ (get_prop packet "i")); [|discriminate].
    unfold findHandler in *. rewrite Hh. by apply find_app_found. }
  split; [exact Hfind'|].
  destruct (handle_promises w packet h Hcb Hfind) as [-> ->].
  destruct (handle_promises w' packet h Hcb Hfind') as [-> ->].
  unfold invoke. rewrite Hs. apply settle_same_at.
  by rewrite Hst, (Hkeep p st Hst).
Qed.

End Lifecycle.

Lemma calls_survive_connection_events_demo :
  let evs := [SockError 0 (Error "reset"); SockClose 0 1006; TimerFire 0;
              SockOpen 1; Resume 1] in
  let packet := demo_callback "U-1" (Some demo_add_ok) in
  let w' := run demo_parse demo_pending evs in
  handlers (client demo_pending) `prefix_of` handlers (client w')
  /\ promises demo_pending `prefix_of` promises w'
  /\ callback_lookup w' packet = Some demo_entry
  /\ promises (fst (handle w' packet)) !! 1%nat
     = promises (fst (handle demo_pending packet)) !! 1%nat
  /\ snd (handle w' packet) = snd (handle demo_pending packet).
Proof.
  intros evs packet w'.
  destruct (calls_survive_connection_events demo_parse demo_pending evs)
    as (Hh & Hp & _ & _ & Hreply); [reflexivity|].
  split; [exact Hh|]. split; [exact Hp|].
  apply (Hreply packet demo_entry 1%nat Pending).
  - reflexivity.
  - vm_compute. reflexivity.
  - reflexivity.
  - vm_compute. reflexivity.
Defined.

(** The scenario of X12: after the connection dropped and came back, the
    registry holds the entry of the call made before and that of the new
    login, and the late reply fulfils the call. *)
Lemma scenario_reply_after_reconnect :
  let w' := run demo_parse demo_pending
              [SockError 0 (Error "reset"); SockClose 0 1006; TimerFire 0;
               SockOpen 1; Resume 1] in
  name <$> handlers (client w') = ["U-1"; "U-2"]
  /\ promises (fst (handle w' (demo_callback "U-1" (Some demo_add_ok)))) !! 1%nat
     = Some (Fulfilled demo_add_ok).
Proof. vm_compute. split; reflexivity. Qed.

(** ** A login that is refused *)

Lemma handle_found_emitted (w : World) (packet : json) (h : Handler) :
  is_callback (get_prop packet "t") = true ->
  callback_lookup w packet = Some h ->
  emitted (fst (handle w packet)) = emitted w.
Proof.
  intros Hcb Hfind. rewrite (handle_callback_found w packet h Hcb Hfind).
  unfold dispatch.
  pose proof (invoke_emitted w h packet) as He.
  destruct (invoke w h packet) as [w1 [|e]]; simpl in *; [|done].
  by destruct (_ >? _).
Qed.

(** X13. When the reply to the login call carries a status other than 200,
    the run of [connect] that awaits it does not go through. If the status
    converts to a string, the login promise is rejected and the run ends
    rejected with [Response code: ] and that string (the status as
    JavaScript prints it when the value [prints_exactly]); if it does not
    convert, the handler throws, the promise stays pending and the run stays
    parked. Either way no ['connect'] event is emitted, the retry counter
    is not reset, the socket is left as it is and no timer is armed, so
    nothing retries; resuming that run again changes nothing. *)
Theorem refused_login_fails_connect (w : World) (packet data status : json)
    (h : Handler) (p task : nat) :
  tasks w !! task = Some (AwaitLogin p) ->
  promises w !! p = Some Pending ->
  is_callback (get_prop packet "t") = true ->
  callback_lookup w packet = Some h ->
  handler h = Settle p ->
  get_prop packet "d" = Some data ->
  get_prop data "status" = Some status ->
  status <> JNum 200 ->
  let w1 := fst (handle w packet) in
  let w2 := resume w1 task in
  match to_string status with
  | Some text =>
      snd (handle w packet) = Normal
      /\ exists msg,
           tasks w2 !! task = Some (Failed (Error ("Response code: " +:+ msg)))
           /\ (prints_exactly status = true -> msg = text)
  | None =>
      (exists msg, handle w packet = (w, Throw (TypeError msg)))
      /\ tasks w2 !! task = Some (AwaitLogin p)
      /\ promises w2 !! p = Some Pending
  end
  /\ emitted w2 = emitted w
  /\ reconnectTries (client w2) = reconnectTries (client w)
  /\ sockets w2 = sockets w
  /\ timers w2 = timers w
  /\ resume w2 task = w2.
Proof.
  intros Ht Hp Hcb Hfind Hh Hd Hs Hne w1 w2.
  assert (data <> JNull) as Hnn by (intros ->; discriminate).
  assert (strict_eq_num status 200 = false) as E200.
  { destruct (strict_eq_num status 200) eqn:E; [|done].
    apply strict_eq_num_spec in E. contradiction. }
  destruct (handle_promises w packet h Hcb Hfind) as [Hprom Hret].
  assert (tasks w1 = tasks w) as Ht1 by apply handle_tasks.
  destruct (to_string status) as [text|] eqn:Hconv.
  - assert (promises w1 !! p
            = Some (Rejected (Error ("Response code: " +:+ text)))) as Hrej.
    { subst w1. rewrite Hprom. unfold invoke. rewrite Hh.
      rewrite (settle_with_payload w p packet data Hd Hnn), Hs, E200, Hconv.
      by apply settle_promise_lookup. }
    assert (w2 = set_tasks w1
                   (<[task := Failed (Error ("Response code: " +:+ text))]>
                      (tasks w1))) as E2.
    { subst w2. unfold resume. by rewrite Ht1, Ht, Hrej. }
    rewrite E2. simpl. split; [split|].
    + rewrite Hret. unfold invoke. rewrite Hh.
      by rewrite (settle_with_payload w p packet data Hd Hnn), Hs, E200, Hconv.
    + exists text. split; [|done].
      rewrite list_lookup_insert_eq; [done|]. rewrite Ht1. by eapply lookup_lt_Some.
    + repeat split.
      * by apply (handle_found_emitted w packet h).
      * subst w1. by rewrite handle_client.
      * apply handle_sockets.
      * apply handle_timers.
      * unfold resume. simpl.
        rewrite list_lookup_insert_eq; [done|]. rewrite Ht1. by eapply lookup_lt_Some.
  - assert (handle w packet
            = (w, Throw (TypeError "Cannot convert object to primitive value")))
      as E.
    { rewrite (handle_callback_found w packet h Hcb Hfind).
      unfold dispatch, invoke. rewrite Hh.
      by rewrite (settle_unconvertible w p packet data status Hd Hs Hconv). }
    assert (w1 = w) as -> by (subst w1; by rewrite E).
    assert (w2 = w) as -> by (subst w2; unfold resume; by rewrite Ht, Hp).
    repeat split; eauto.
    unfold resume. by rewrite Ht, Hp.
Qed.

Lemma refused_login_fails_connect_demo :
  let packet := demo_callback "U-0" (Some (JObj [("status", JNum 401)])) in
  let w1 := fst (handle demo_authenticating packet) in
  let w2 := resume w1 0 in
  (snd (handle demo_authenticating packet) = Normal
   /\ exists msg,
        tasks w2 !! 0%nat = Some (Failed (Error ("Response code: " +:+ msg)))
        /\ (prints_exactly (JNum 401) = true -> msg = "401"))
  /\ emitted w2 = emitted demo_authenticating
  /\ reconnectTries (client w2) = reconnectTries (client demo_authenticating)
  /\ sockets w2 = sockets demo_authenticating
  /\ timers w2 = timers demo_authenticating
  /\ resume w2 0 = w2.
Proof.
  intros packet.
  apply (refused_login_fails_connect demo_authenticating packet
           (JObj [("status", JNum 401)]) (JNum 401) demo_login_entry 0 0).
  - vm_compute. reflexivity.
  - vm_compute. reflexivity.
  - reflexivity.
  - vm_compute. reflexivity.
  - reflexivity.
  - reflexivity.
  - reflexivity.
  - discriminate.
Defined.

(** ** Packet.respond *)

Lemma on_wire_kind (data : PacketData) :
  get_prop (on_wire data) "t" = Some (JStr (tag (t data))).
Proof. reflexivity. Qed.

Lemma on_wire_id (data : PacketData) :
  get_prop (on_wire data) "i" = Some (JStr (i data)).
Proof. reflexivity. Qed.

Lemma on_wire_payload (data : PacketData) :
  get_prop (on_wire data) "d" = d data.
Proof.
  unfold on_wire, get_prop.
  destruct (s data), (n data), (d data); reflexivity.
Qed.

Lemma index_from_found (hs : list Handler) (h : Handler) (z : Z) :
  0 <= z -> h ∈ hs -> 0 <= index_from z (ref h) hs.
Proof.
  revert z. induction hs as [|h0 hs IH]; intros z Hz Hin; [inversion Hin|].
  simpl. destruct (Nat.eqb (ref h0) (ref h)) eqn:E; [exact Hz|].
  apply elem_of_cons in Hin as [->|Hin].
  - by rewrite Nat.eqb_refl in E.
  - apply IH; [lia|exact Hin].
Qed.

(** X14. A call answered with [respond]. Take the envelope that [send]
    writes for a call whose id no callback handler of the application bears,
    and let a peer holding a transport call [respond] on the packet made of
    it. The peer writes one envelope, of kind callback, with the
    correlation id and the service of the request and with the reply as
    payload. Delivered to the caller, that envelope settles the promise of
    the call as the status of the reply says: fulfilled with the reply when
    it has no status or status 200, rejected with [Response code: ] and the
    status when it has another status that converts to a string. When
    [respond] is given no data, or [null], or a reply whose status does not
    convert, the caller's handler throws instead and the call stays
    pending. *)
Theorem respond_answers_call (w peer : World) (ty : PacketType) (path_ : string)
    (data reply : option json) (k kp : nat) (sk skp : WebSocket) :
  socket (client w) = Some k ->
  sockets w !! k = Some sk ->
  (forall h, h ∈ handlers (client w) -> type h = Callback ->
     name h <> pending_id w (callbacks (client w))) ->
  socket (client peer) = Some kp ->
  sockets peer !! kp = Some skp ->
  let w1 := fst (send w ty path_ data) in
  let p := snd (send w ty path_ data) in
  exists request answer,
    last_sent w1 k = Some request
    /\ snd (respond peer request reply) = Normal
    /\ sockets (fst (respond peer request reply)) !! kp = Some (push_frame answer skp)
    /\ t answer = Callback /\ i answer = i request /\ s answer = s request
    /\ n answer = None /\ d answer = reply
    /\ promises w1 !! p = Some Pending
    /\ match reply with
       | None | Some JNull =>
           exists msg, handle w1 (on_wire answer) = (w1, Throw (TypeError msg))
       | Some v =>
           (fulfils v ->
            snd (handle w1 (on_wire answer)) = Normal
            /\ promises (fst (handle w1 (on_wire answer))) !! p
               = Some (Fulfilled v))
           /\ (forall status text,
                 get_prop v "status" = Some status -> status <> JNum 200 ->
                 to_string status = Some text ->
                 snd (handle w1 (on_wire answer)) = Normal
                 /\ exists msg,
                      promises (fst (handle w1 (on_wire answer))) !! p
                      = Some (Rejected (Error ("Response code: " +:+ msg)))
                      /\ (prints_exactly status = true -> msg = text))
           /\ (forall status,
                 get_prop v "status" = Some status -> to_string status = None ->
                 exists msg,
                   handle w1 (on_wire answer) = (w1, Throw (TypeError msg)))
       end.
Proof.
  intros Hsock Hsk Hfresh Hpsock Hpsk w1 p.
  destruct (send_shape w ty path_ data) as (Hp & Hhs & _).
  fold w1 in Hhs. fold p in Hp.
  set (X := pending_id w (callbacks (client w))) in *.
  set (request := {| s := head (split_slash path_);
                     n := Some (join "/" (tail (split_slash path_)));
                     t := ty; d := data; i := X |}).
  set (answer := {| s := s request; n := None; t := Callback; d := reply;
                    i := i request |}).
  set (hnew := {| ref := next_ref w; name := X; type := Callback;
                  handler := Settle (length (promises w)) |}) in *.
  exists request, answer.
  assert (promises w1 !! p = Some Pending) as Hpend.
  { subst w1 p. rewrite Hp. unfold send, write. simpl. rewrite Hsock. simpl.
    by rewrite list_lookup_middle. }
  assert (callback_lookup w1 (on_wire answer) = Some hnew) as Hfind.
  { unfold callback_lookup, findHandler. rewrite Hhs, on_wire_id.
    change (find (matches (Some (JStr X)) (Some (JStr (tag Callback))))
              (handlers (client w) ++ [hnew]) = Some hnew).
    rewrite find_app_skip.
    - cbn [find]. by rewrite (proj2 (matches_tag (Some (JStr X)) Callback hnew)).
    - intros h Hh. destruct (matches _ _ h) eqn:E; [|reflexivity].
      apply (matches_tag _ Callback) in E as [[= E] Hty].
      by destruct (Hfresh h Hh Hty). }
  assert (handle w1 (on_wire answer)
          = match settle w1 p (on_wire answer) with
            | (w2, Throw e) => (w2, Throw e)
            | (w2, Normal) =>
                (with_client w2
                   (set_handlers (client w2)
                      (splice1 (handlers (client w2))
                         (indexOf (handlers (client w1)) (Some hnew)))),
                 Normal)
            end) as Ehandle.
  { rewrite (handle_callback_found w1 (on_wire answer) hnew eq_refl Hfind).
    unfold dispatch, invoke. simpl handler. cbv iota. rewrite <- Hp. fold p.
    destruct (settle w1 p (on_wire answer)) as [w2 [|e]]; [|reflexivity].
    assert ((indexOf (handlers (client w1)) (Some hnew) >? -1) = true) as ->;
      [|reflexivity].
    pose proof (index_from_found (handlers (client w1)) hnew 0) as Hge.
    destruct (Z.gtb_spec (indexOf (handlers (client w1)) (Some hnew)) (-1));
      [reflexivity|].
    unfold indexOf in *. rewrite Hhs in *.
    assert (hnew ∈ handlers (client w) ++ [hnew])
      by (apply elem_of_app; right; by apply list_elem_of_singleton).
    specialize (Hge ltac:(lia) ltac:(assumption)). lia. }
  split.
  { unfold last_sent.
    change (sockets w1 !! k) with (sockets (fst (send w ty path_ data)) !! k).
    rewrite (send_frame w ty path_ data k sk Hsock Hsk).
    simpl. by rewrite last_snoc. }
  split; [unfold respond, write; by rewrite Hpsock|].
  split.
  { unfold respond, write. rewrite Hpsock. simpl.
    rewrite list_lookup_alter, decide_True by reflexivity. by rewrite Hpsk. }
  do 5 (split; [reflexivity|]). split; [exact Hpend|].
  assert (reply = None \/ reply = Some JNull ->
          exists msg, handle w1 (on_wire answer) = (w1, Throw (TypeError msg)))
    as Hnone.
  { intros Hr. rewrite Ehandle. unfold settle. rewrite on_wire_payload.
    simpl d. destruct Hr as [-> | ->]; eexists; reflexivity. }
  assert (forall v, reply = Some v -> v <> JNull ->
            (fulfils v ->
             snd (handle w1 (on_wire answer)) = Normal
             /\ promises (fst (handle w1 (on_wire answer))) !! p
                = Some (Fulfilled v))
            /\ (forall status text,
                  get_prop v "status" = Some status -> status <> JNum 200 ->
                  to_string status = Some text ->
                  snd (handle w1 (on_wire answer)) = Normal
                  /\ exists msg,
                       promises (fst (handle w1 (on_wire answer))) !! p
                       = Some (Rejected (Error ("Response code: " +:+ msg)))
                       /\ (prints_exactly status = true -> msg = text))
            /\ (forall status,
                  get_prop v "status" = Some status -> to_string status = None ->
                  exists msg,
                    handle w1 (on_wire answer) = (w1, Throw (TypeError msg))))
    as Hvalue.
  { intros v -> Hv. rewrite Ehandle.
    pose proof (on_wire_payload answer) as Hd. simpl d in Hd.
    split; [|split].
    - intros Hful. rewrite (settle_fulfils w1 p _ v Hd Hful). simpl.
      split; [reflexivity|]. by apply settle_promise_lookup.
    - intros status text Hs Hne Hconv.
      rewrite (settle_with_payload w1 p _ v Hd Hv), Hs.
      destruct (strict_eq_num status 200) eqn:E200.
      { apply strict_eq_num_spec in E200. contradiction. }
      rewrite Hconv. simpl. split; [reflexivity|]. exists text.
      split; [by apply settle_promise_lookup|done].
    - intros status Hs Hconv.
      rewrite (settle_unconvertible w1 p _ v status Hd Hs Hconv). eauto. }
  destruct reply as [[]|]; auto; apply Hvalue; auto; discriminate.
Qed.

Lemma respond_answers_call_demo :
  exists request answer,
    last_sent (fst (send demo_open Call "math/add" None)) 0 = Some request
    /\ snd (respond demo_open request (Some demo_add_ok)) = Normal
    /\ sockets (fst (respond demo_open request (Some demo_add_ok))) !! 0%nat
       = Some (push_frame answer
                 {| sent := [{| s := Some "auth"; n := Some "login"; t := Call;
                                d := Some (JObj [("s", JStr "svc")]); i := "U-0" |}];
                    opened := true; closed := false |})
    /\ t answer = Callback /\ i answer = i request /\ s answer = s request
    /\ n answer = None /\ d answer = Some demo_add_ok
    /\ promises (fst (send demo_open Call "math/add" None))
         !! snd (send demo_open Call "math/add" None) = Some Pending
    /\ snd (handle (fst (send demo_open Call "math/add" None)) (on_wire answer)) = Normal
    /\ promises (fst (handle (fst (send demo_open Call "math/add" None)) (on_wire answer)))
         !! snd (send demo_open Call "math/add" None)
       = Some (Fulfilled demo_add_ok).
Proof.
  destruct (respond_answers_call demo_open demo_open Call "math/add" None
           (Some demo_add_ok) 0%nat 0%nat
           {| sent := [{| s := Some "auth"; n := Some "login"; t := Call;
                          d := Some (JObj [("s", JStr "svc")]); i := "U-0" |}];
              opened := true; closed := false |}
           {| sent := [{| s := Some "auth"; n := Some "login"; t := Call;
                          d := Some (JObj [("s", JStr "svc")]); i := "U-0" |}];
              opened := true; closed := false |})
    as (request & answer & H1 & H2 & H3 & H4 & H5 & H6 & H7 & H8 & H9 & Hful & _).
  - vm_compute. reflexivity.
  - vm_compute. reflexivity.
  - intros h Hh. vm_compute in Hh. inversion Hh.
  - vm_compute. reflexivity.
  - vm_compute. reflexivity.
  - exists request, answer.
    do 9 (split; [assumption|]).
    apply Hful. split; [discriminate|]. right. reflexivity.
Defined.

(** ** The two channels *)

(** X15. The base URL of the HTTP client is made once, in the constructor,
    from the options as merged there, while the socket endpoint is made at
    each [connect], after the fallback to the default host and port. With a
    non-empty host and a non-zero port in the merged options both channels
    address the same host and port, with matching schemes. With an empty
    host given by the application the base URL keeps the empty host while
    the socket goes to 127.0.0.1; and a key given with the value
    [undefined] hides the default: given [{host: undefined, port:
    undefined}] the base URL is [http://undefined:undefined] while the
    socket goes to 127.0.0.1:9998. Only a key that is absent takes the
    default in the constructor. *)
Theorem api_and_socket_addresses (uuid : string) (o : Given) :
  let w := new_client uuid o in
  (nonempty (host (opts (client w))) = true ->
   nonzero (port (opts (client w))) = true ->
   exists h p,
     baseURL (client w)
     = (if p =? 443 then "https" else "http") +:+ "://" +:+ h +:+ ":" +:+ pretty p
     /\ wsEndpoint (client (connect w))
        = (if p =? 443 then "wss" else "ws") +:+ "://" +:+ h +:+ ":" +:+ pretty p
          +:+ show_string (path (opts (client w))))
  /\ (given_host o = Some (Some "") ->
      nonzero (port (opts (client w))) = true ->
      exists p,
        baseURL (client w)
        = (if p =? 443 then "https" else "http") +:+ "://" +:+ "" +:+ ":" +:+ pretty p
        /\ wsEndpoint (client (connect w))
           = (if p =? 443 then "wss" else "ws") +:+ "://" +:+ DEFAULT_HOST +:+ ":"
             +:+ pretty p +:+ show_string (path (opts (client w))))
  /\ (given_host o = Some None -> given_port o = Some None ->
      baseURL (client w) = "http://undefined:undefined"
      /\ wsEndpoint (client (connect w))
         = "ws://127.0.0.1:9998" +:+ show_string (path (opts (client w))))
  /\ (given_host o = None -> host (opts (client w)) = Some DEFAULT_HOST)
  /\ (given_port o = None -> port (opts (client w)) = Some DEFAULT_PORT).
Proof.
  intros w.
  assert (opts (client (connect w))
          = set_host_port (opts (client w))
              (if nonempty (host (opts (client w)))
               then host (opts (client w)) else Some DEFAULT_HOST)
              (if nonzero (port (opts (client w)))
               then port (opts (client w)) else Some DEFAULT_PORT)) as Hopts.
  { unfold connect, open_socket. by case_match. }
  split; [|split; [|split; [|split]]].
  - intros Hh Hp.
    destruct (host (opts (client w))) as [h|] eqn:Eh; [|discriminate].
    destruct (port (opts (client w))) as [p|] eqn:Ep; [|discriminate].
    exists h, p. unfold baseURL, wsEndpoint, protocol, wsProtocol.
    rewrite Hopts, Eh, Ep, Hh, Hp. simpl. by rewrite !port_443_case.
  - intros Hempty Hp.
    assert (host (opts (client w)) = Some "") as Eh
      by (subst w; simpl; by rewrite Hempty).
    destruct (port (opts (client w))) as [p|] eqn:Ep; [|discriminate].
    exists p. unfold baseURL, wsEndpoint, protocol, wsProtocol.
    rewrite Hopts, Eh, Ep, Hp. simpl. by rewrite !port_443_case.
  - intros Hh Hp.
    assert (host (opts (client w)) = None) as Eh
      by (subst w; simpl; by rewrite Hh).
    assert (port (opts (client w)) = None) as Ep
      by (subst w; simpl; by rewrite Hp).
    unfold baseURL, wsEndpoint, protocol, wsProtocol.
    rewrite Hopts, Eh, Ep. simpl. split; reflexivity.
  - intros Hh. subst w. simpl. by rewrite Hh.
  - intros Hp. subst w. simpl. by rewrite Hp.
Qed.

Lemma api_and_socket_addresses_demo :
  exists h p,
    baseURL (client (new_client "U" demo_options))
    = (if p =? 443 then "https" else "http") +:+ "://" +:+ h +:+ ":" +:+ pretty p
    /\ wsEndpoint (client (connect (new_client "U" demo_options)))
       = (if p =? 443 then "wss" else "ws") +:+ "://" +:+ h +:+ ":" +:+ pretty p
         +:+ show_string (path (opts (client (new_client "U" demo_options)))).
Proof.
  apply (api_and_socket_addresses "U" demo_options); reflexivity.
Defined.

(** [new Client()]: the options are the defaults. *)
Lemma scenario_default_options :
  opts (client (new_client "U" no_options)) = DEFAULT_OPTIONS.
Proof. reflexivity. Qed.

(** The scenario of X15 on the code: [new Client({host: undefined, port:
    undefined})]. *)
Lemma scenario_undefined_host :
  let w := new_client "U"
             {| given_name := None; given_host := Some None;
                given_port := Some None; given_path := None;
                given_token := None; given_autoReconnect := None;
                given_reconnectInterval := None;
                given_reconnectIntervalMultiplier := None |} in
  baseURL (client w) = "http://undefined:undefined"
  /\ wsEndpoint (client (connect w)) = "ws://127.0.0.1:9998/".
Proof. vm_compute. split; reflexivity. Qed.

